(** * kaggle-nodejs-mcp-client: schema translation and the query loop

    A shallow embedding of [src/index.ts]: the translator
    [zodTypeToGoogleSchema], the catalog builder [processTools], and the
    methods of [MCPClient] ([connectToServer], [processQuery], [chatLoop],
    [cleanup]) together with [main].

    JavaScript objects used as string-keyed maps (a Zod object's [shape], a
    schema's [properties], a tool's [inputSchema.properties]) are finite maps
    [gmap string _].  Code that talks to the outside (the model session, the
    tool provider, the console, standard input) is written in a small
    state-and-completion monad over an explicit [World]. *)

From Stdlib Require Import ZArith Ascii.
From stdpp Require Import gmap strings list fin_maps.

Set Warnings "-register-all".

(** ** The source type language (Zod) *)

(** [ZodNumber] keeps its validation checks in [_def.checks]; the translator
    looks only at their [kind]. *)
Inductive ZodNumberCheckKind : Type :=
  | KindMin | KindMax | KindInt | KindMultipleOf | KindFinite.

Record ZodNumberCheck : Type := MkCheck {
  kind : ZodNumberCheckKind;
  message : option string;
}.

(** A default value carried by [ZodDefault]; the translator never reads it. *)
Inductive Literal : Type :=
  | LitString (s : string)
  | LitNumber (n : Z)
  | LitBoolean (b : bool)
  | LitNull.

(** The values the translator can be handed (TypeScript's [ZodTypeAny]).
    Every node carries its optional [description].  The classes the source
    tests with [instanceof] are constructors of their own; every other
    class of the library (dates, unions, literals, records, ...) is
    [ZodOther], tagged with its type name. *)
Inductive ZodTypeAny : Type :=
  | ZodOptional (description : option string) (innerType : ZodTypeAny)
  | ZodNullable (description : option string) (innerType : ZodTypeAny)
  | ZodDefault (description : option string) (innerType : ZodTypeAny)
               (defaultValue : Literal)
  | ZodString (description : option string)
  | ZodNumber (description : option string)
              (checks : option (list ZodNumberCheck))
  | ZodBoolean (description : option string)
  | ZodEnum (description : option string) (values : list string)
  | ZodArray (description : option string) (type : ZodTypeAny)
  | ZodObject (description : option string) (shape : gmap string ZodTypeAny)
  | ZodOther (typeName : string) (description : option string).

(** [zodType.description] *)
Definition zod_description (zodType : ZodTypeAny) : option string :=
  match zodType with
  | ZodOptional d _ | ZodNullable d _ | ZodDefault d _ _
  | ZodString d | ZodNumber d _ | ZodBoolean d | ZodEnum d _
  | ZodArray d _ | ZodObject d _ | ZodOther _ d => d
  end.

(** ** The target schema language (Google function calling) *)

Inductive SchemaType : Type :=
  | STRING | NUMBER | INTEGER | BOOLEAN | ARRAY | OBJECT.

(** The fields of [Schema] that this program writes, and [required], which
    it never writes.  A field that an object literal leaves out, or sets to
    [undefined], is [None]. *)
Inductive Schema : Type := MkSchema {
  schema_type : SchemaType;
  schema_description : option string;
  schema_format : option string;
  schema_enum : option (list string);
  schema_items : option Schema;
  schema_properties : option (gmap string Schema);
  schema_required : option (list string);
}.

#[global] Instance SchemaType_eq_dec : EqDecision SchemaType.
Proof. solve_decision. Defined.

(** ** zodTypeToGoogleSchema *)

(** [if (zodType instanceof ZodOptional || zodType instanceof ZodNullable)
       zodType = zodType.unwrap();] *)
Definition unwrapOptionalNullable (zodType : ZodTypeAny) : ZodTypeAny :=
  match zodType with
  | ZodOptional _ inner | ZodNullable _ inner => inner
  | _ => zodType
  end.

(** [if (zodType instanceof ZodDefault) zodType = zodType._def.innerType;] *)
Definition unwrapDefault (zodType : ZodTypeAny) : ZodTypeAny :=
  match zodType with
  | ZodDefault _ inner _ => inner
  | _ => zodType
  end.

(** The three conditionals at the head of the function, in source order:
    one optional/nullable layer, one default layer, one optional/nullable
    layer again. *)
Definition unwrapWrappers (zodType : ZodTypeAny) : ZodTypeAny :=
  unwrapOptionalNullable (unwrapDefault (unwrapOptionalNullable zodType)).

(** [zodType._def.checks?.some(ch => ch.kind === 'int')]; an absent check
    list gives [undefined], which the conditional treats as false. *)
Definition isInt (checks : option (list ZodNumberCheck)) : bool :=
  match checks with
  | Some chs =>
      existsb (fun ch => match kind ch with KindInt => true | _ => false end) chs
  | None => false
  end.

(** An object literal with only [type] and [description]. *)
Definition plainSchema (t : SchemaType) (d : option string) : Schema :=
  MkSchema t d None None None None None.

Fixpoint zodTypeToGoogleSchema (zodType : ZodTypeAny) : Schema :=
  match unwrapWrappers zodType with
  | ZodString d => plainSchema STRING d
  | ZodNumber d checks =>
      plainSchema (if isInt checks then INTEGER else NUMBER) d
  | ZodBoolean d => plainSchema BOOLEAN d
  | ZodEnum d values =>
      MkSchema STRING d (Some "enum") (Some values) None None None
  | ZodArray d type =>
      MkSchema ARRAY d None None (Some (zodTypeToGoogleSchema type)) None None
  | ZodObject d shape =>
      (* the loop assigns properties[key] for every key of shape; on the
         object literal that properties starts as, an assignment to the
         key __proto__ goes to the prototype setter and adds no key of
         its own; the bookkeeping for nestedRequired in the loop body is
         commented out *)
      MkSchema OBJECT d None None None
               (Some (delete "__proto__" (zodTypeToGoogleSchema <$> shape)))
               None
  | (ZodOptional _ _ | ZodNullable _ _ | ZodDefault _ _ _ | ZodOther _ _) as z =>
      plainSchema STRING (zod_description z)
  end.

(** ** Tools and declarations *)

(** A tool as [listTools] returns it.  [inputSchema.properties] may be
    absent; the source reads its values as Zod types. *)
Record Tool : Type := MkTool {
  tool_name : string;
  tool_description : option string;
  tool_inputProperties : option (gmap string ZodTypeAny);
}.

Record FunctionDeclaration : Type := MkFunctionDeclaration {
  fd_name : string;
  fd_description : option string;
  fd_parameters : Schema;
}.

Record FunctionDeclarationsTool : Type := MkFunctionDeclarationsTool {
  functionDeclarations : list FunctionDeclaration;
}.

(** The body of the callback that [processTools] maps over the tool list. *)
Definition toolToGoogleTool (tool : Tool) : FunctionDeclarationsTool :=
  let googleProperties : gmap string Schema :=
    match tool_inputProperties tool with
    | Some inputProperties => zodTypeToGoogleSchema <$> inputProperties
    | None => ∅
    end in
  let googleParameters :=
    MkSchema OBJECT (tool_description tool) None None None
             (Some googleProperties) None in
  let funcDecl :=
    MkFunctionDeclaration (tool_name tool) (tool_description tool)
                          googleParameters in
  MkFunctionDeclarationsTool [funcDecl].

(** ** Values exchanged with the model session and the tool provider *)

Record Exn : Type := MkExn { exn_name : string; exn_message : string }.

Definition Error (msg : string) : Exn := MkExn "Error" msg.
Definition TypeError (msg : string) : Exn := MkExn "TypeError" msg.

Record FunctionCall (A : Type) : Type := MkFunctionCall {
  fc_name : string;
  fc_args : A;
}.
Arguments MkFunctionCall {A} _ _.
Arguments fc_name {A} _.
Arguments fc_args {A} _.

(** [result.response]: both accessors are calls and may throw;
    [functionCalls()] may also return [undefined]. *)
Record Response (A : Type) : Type := MkResponse {
  response_text : Exn + string;
  response_functionCalls : Exn + option (list (FunctionCall A));
}.
Arguments MkResponse {A} _ _.
Arguments response_text {A} _.
Arguments response_functionCalls {A} _.

Record ContentBlock : Type := MkContentBlock {
  block_type : string;
  block_text : option string;
}.

Record CallToolResult : Type := MkCallToolResult {
  content : list ContentBlock;
}.

Record StdioClientTransport : Type := MkTransport {
  command : string;
  args : list string;
}.

Record ProcessEnv : Type := MkProcessEnv {
  GEMINI_API_KEY : option string;
  platform : string;
  execPath : string;
}.

(** The libraries the program calls, as an interface.  A session and a
    provider client are objects with hidden state, so each operation
    returns the next state along with what the awaited promise settles
    to. *)
Record Runtime : Type := MkRuntime {
  Args : Type;
  JSON_stringify : Args → string;
  GenerativeModel : Type;
  ChatSession : Type;
  getGenerativeModel : string → string → GenerativeModel;
  startChat :
    GenerativeModel → string → list FunctionDeclarationsTool → ChatSession;
  sendMessage : ChatSession → string → ChatSession * (Exn + Response Args);
  Client : Type;
  newClient : string → string → Client;
  connect : Client → StdioClientTransport → Client * (Exn + unit);
  listTools : Client → Client * (Exn + list Tool);
  callTool : Client → string → Args → Client * (Exn + CallToolResult);
  close : Client → Client * (Exn + unit);
}.

(** What the program does to the outside, oldest first. *)
Inductive Event (R : Runtime) : Type :=
  | EvConsoleLog (line : string)
  | EvConsoleLogResult (result : CallToolResult)
  | EvConsoleLogConnected (names : list (option string))
  | EvConsoleLogFailed (e : Exn)
  | EvConsoleError (e : Exn)
  | EvQuestion (prompt answer : string)
  | EvReadlineClose
  | EvConnect (t : StdioClientTransport)
  | EvListTools
  | EvCallTool (name : string) (arguments : Args R)
  | EvSendMessage (text : string)
  | EvClose.
Arguments EvConsoleLog {R} _.
Arguments EvConsoleLogResult {R} _.
Arguments EvConsoleLogConnected {R} _.
Arguments EvConsoleLogFailed {R} _.
Arguments EvConsoleError {R} _.
Arguments EvQuestion {R} _ _.
Arguments EvReadlineClose {R}.
Arguments EvConnect {R} _.
Arguments EvListTools {R}.
Arguments EvCallTool {R} _ _.
Arguments EvSendMessage {R} _.
Arguments EvClose {R}.

(** The fields of an [MCPClient] instance and the trace of its effects.
    [this.session] starts as an empty object cast to a session, on which
    no method exists: that is [None]. *)
Record World (R : Runtime) : Type := MkWorld {
  this_mcp : Client R;
  this_gemini : GenerativeModel R;
  this_session : option (ChatSession R);
  this_transport : option StdioClientTransport;
  this_tools : list FunctionDeclarationsTool;
  trace : list (Event R);
}.
Arguments MkWorld {R} _ _ _ _ _ _.
Arguments this_mcp {R} _.
Arguments this_gemini {R} _.
Arguments this_session {R} _.
Arguments this_transport {R} _.
Arguments this_tools {R} _.
Arguments trace {R} _.

(** ** Completions and the monad of the client's methods *)

(** How a piece of asynchronous code ends: with a value, with a thrown
    exception (a rejected promise), by [process.exit], or not at all
    because it awaits a line of input that the given input does not
    contain. *)
Inductive Completion (A : Type) : Type :=
  | Normal (a : A)
  | Throw (e : Exn)
  | Exit (code : Z)
  | Pending.
Arguments Normal {A} _.
Arguments Throw {A} _.
Arguments Exit {A} _.
Arguments Pending {A}.

Definition M (R : Runtime) (A : Type) : Type :=
  World R → Completion A * World R.

#[global] Instance M_ret (R : Runtime) : MRet (M R) :=
  λ A (a : A) (w : World R), (Normal a, w).

#[global] Instance M_bind (R : Runtime) : MBind (M R) :=
  λ A B (k : A → M R B) (c : M R A) (w : World R),
    match c w with
    | (Normal a, w') => k a w'
    | (Throw e, w') => (Throw e, w')
    | (Exit n, w') => (Exit n, w')
    | (Pending, w') => (Pending, w')
    end.

Section Methods.
Context {R : Runtime}.

Definition throw {A} (e : Exn) : M R A := λ w, (Throw e, w).
Definition process_exit {A} (code : Z) : M R A := λ w, (Exit code, w).
Definition pending {A} : M R A := λ w, (Pending, w).

(** [try { body } catch (e) { handler e }] *)
Definition try_catch {A} (body : M R A) (handler : Exn → M R A) : M R A :=
  λ w, match body w with
       | (Throw e, w') => handler e w'
       | r => r
       end.

(** [try { body } finally { fin }]: the finalizer runs after a value and
    after an exception, and an abrupt end of the finalizer replaces
    either. *)
Definition try_finally {A} (body : M R A) (fin : M R unit) : M R A :=
  λ w, match body w with
       | (Normal a, w') =>
           match fin w' with
           | (Normal _, w'') => (Normal a, w'')
           | (Throw e, w'') => (Throw e, w'')
           | (Exit n, w'') => (Exit n, w'')
           | (Pending, w'') => (Pending, w'')
           end
       | (Throw e, w') =>
           match fin w' with
           | (Normal _, w'') => (Throw e, w'')
           | (Throw e', w'') => (Throw e', w'')
           | (Exit n, w'') => (Exit n, w'')
           | (Pending, w'') => (Pending, w'')
           end
       | r => r
       end.

Definition emit (ev : Event R) : M R unit :=
  λ w, (Normal (),
        MkWorld (this_mcp w) (this_gemini w) (this_session w)
                (this_transport w) (this_tools w) (trace w ++ [ev])).

Definition set_mcp (c : Client R) : M R unit :=
  λ w, (Normal (),
        MkWorld c (this_gemini w) (this_session w) (this_transport w)
                (this_tools w) (trace w)).

Definition set_session (s : ChatSession R) : M R unit :=
  λ w, (Normal (),
        MkWorld (this_mcp w) (this_gemini w) (Some s) (this_transport w)
                (this_tools w) (trace w)).

Definition set_transport (t : StdioClientTransport) : M R unit :=
  λ w, (Normal (),
        MkWorld (this_mcp w) (this_gemini w) (this_session w) (Some t)
                (this_tools w) (trace w)).

Definition set_tools (ts : list FunctionDeclarationsTool) : M R unit :=
  λ w, (Normal (),
        MkWorld (this_mcp w) (this_gemini w) (this_session w)
                (this_transport w) ts (trace w)).

Definition get_world : M R (World R) := λ w, (Normal w, w).

(** Awaiting a promise that settled to [r]. *)
Definition settle {A} (r : Exn + A) : M R A :=
  match r with
  | inl e => throw e
  | inr a => mret a
  end.

(** [await this.session.sendMessage(text)] *)
Definition session_sendMessage (text : string) : M R (Response (Args R)) :=
  w ← get_world;
  match this_session w with
  | None => throw (TypeError "this.session.sendMessage is not a function")
  | Some s =>
      emit (EvSendMessage text);;
      let '(s', r) := sendMessage R s text in
      set_session s';;
      settle r
  end.

(** [await mcp.callTool({ name, arguments })] *)
Definition mcp_callTool (name : string) (arguments : Args R)
  : M R CallToolResult :=
  w ← get_world;
  emit (EvCallTool name arguments);;
  let '(c', r) := callTool R (this_mcp w) name arguments in
  set_mcp c';;
  settle r.

(** [await mcp.listTools()] *)
Definition mcp_listTools : M R (list Tool) :=
  w ← get_world;
  emit EvListTools;;
  let '(c', r) := listTools R (this_mcp w) in
  set_mcp c';;
  settle r.

(** [this.mcp.connect(this.transport);] as the source has it: the call
    is made and its promise is dropped, so whatever it settles to is not
    seen by the caller.  A rejection that nothing handles is raised by
    the runtime on its own account and ends the process; when and how is
    not part of this model, which follows the program's own control
    flow. *)
Definition mcp_connect_unawaited (t : StdioClientTransport) : M R unit :=
  w ← get_world;
  emit (EvConnect t);;
  let '(c', _) := connect R (this_mcp w) t in
  set_mcp c'.

(** [await this.mcp.close()] *)
Definition mcp_close : M R unit :=
  w ← get_world;
  emit EvClose;;
  let '(c', r) := close R (this_mcp w) in
  set_mcp c';;
  settle r.
End Methods.

(** ** Strings *)

(** Strings are sequences of ASCII characters; [toLowerCase] and [trim]
    are the library functions restricted to that range. *)
Definition nl : string := String (ascii_of_nat 10) "".
Definition dq : string := String (ascii_of_nat 34) "".

Definition lower_ascii (c : ascii) : ascii :=
  let n := nat_of_ascii c in
  if (65 <=? n)%nat && (n <=? 90)%nat then ascii_of_nat (n + 32) else c.

Fixpoint toLowerCase (s : string) : string :=
  match s with
  | EmptyString => EmptyString
  | String c s' => String (lower_ascii c) (toLowerCase s')
  end.

(** Tab, line feed, vertical tab, form feed, carriage return, space. *)
Definition is_whitespace (c : ascii) : bool :=
  let n := nat_of_ascii c in
  ((9 <=? n)%nat && (n <=? 13)%nat) || (n =? 32)%nat.

Fixpoint trimStart (s : string) : string :=
  match s with
  | String c s' => if is_whitespace c then trimStart s' else s
  | EmptyString => EmptyString
  end.

Fixpoint trimEnd (s : string) : string :=
  match s with
  | String c s' =>
      match trimEnd s' with
      | EmptyString => if is_whitespace c then EmptyString else String c EmptyString
      | t => String c t
      end
  | EmptyString => EmptyString
  end.

Definition trim (s : string) : string := trimEnd (trimStart s).

Definition endsWith (s suffix : string) : bool :=
  let n := String.length s in
  let k := String.length suffix in
  (k <=? n)%nat && String.eqb (String.substring (n - k) k s) suffix.

(** [array.join(sep)] on an array of strings. *)
Definition join (sep : string) (parts : list string) : string :=
  String.concat sep parts.

(** ** Constants of the module *)

Definition SERVER_PATHS : list string :=
  ["/git/kaggle-nodejs-mcp-server/build/index.js"].

Definition SYSTEM_PROMPT : string :=
  "You are an expert data analyst. Use the tools available to you to answer the user's questions. "
  +:+ nl +:+ nl +:+
  "If the user asks you to analyze a specific dataset (either to answer questions or generate a python notebook), you should fetch the metadata "
  +:+ nl +:+
  "for the provided dataset in order to answer the question."
  +:+ nl +:+ nl +:+
  "References to datasets and notebooks can be in the form of fully qualified URLs like https://www.kaggle.com/<resource>/<owner_slug>/<resource_slug> "
  +:+ nl +:+
  "or simply as a handle in the form of <owner_slug>/<resource_slug>."
  +:+ nl +:+ nl +:+
  "When generating a python notebook, keep in mind that all datasets are mounted in a "
  +:+ dq +:+ "/kaggle/input" +:+ dq +:+
  " directory. For example, a notebook that has a "
  +:+ nl +:+
  "dataset called " +:+ dq +:+ "my-amazing-dataset" +:+ dq +:+ ", with a "
  +:+ dq +:+ "awesome-data.csv" +:+ dq +:+
  " inside would have the file located at "
  +:+ dq +:+ "/kaggle/input/my-amazing-dataset/awesome-data.csv" +:+ dq +:+ ". "
  +:+ nl +:+
  "Ensure that all references to files fit this pattern.".

(** ** The client *)

Section ClientCode.
Context {R : Runtime}.

(** [new MCPClient()]: throws before anything else is built when the key
    is undefined or empty. *)
Definition newMCPClient (env : ProcessEnv) : Exn + World R :=
  match GEMINI_API_KEY env with
  | None | Some EmptyString => inl (Error "GEMINI_API_KEY is not set")
  | Some key =>
      inr (MkWorld (newClient R "mcp-client-cli" "1.0.0")
                   (getGenerativeModel R key "gemini-2.0-flash")
                   None None [] [])
  end.

(** [processTools(mcp)] *)
Definition processTools : M R (list FunctionDeclarationsTool) :=
  tools ← mcp_listTools;
  mret (toolToGoogleTool <$> tools).

(** [t.functionDeclarations?.[0].name]; every element that
    [processTools] builds holds exactly one declaration. *)
Definition firstDeclarationName (t : FunctionDeclarationsTool)
  : option string :=
  fd_name <$> head (functionDeclarations t).

Definition connectToServer (env : ProcessEnv) (serverScriptPath : string)
  : M R unit :=
  try_catch
    (let isJs := endsWith serverScriptPath ".js" in
     let isPy := endsWith serverScriptPath ".py" in
     if negb isJs && negb isPy
     then throw (Error "Server script must be a .js or .py file")
     else
       let command :=
         if isPy
         then (if String.eqb (platform env) "win32"
               then "python" else "python3")
         else execPath env in
       let transport := MkTransport command [serverScriptPath] in
       set_transport transport;;
       mcp_connect_unawaited transport;;
       tools ← processTools;
       set_tools tools;;
       w ← get_world;
       set_session (startChat R (this_gemini w) SYSTEM_PROMPT tools);;
       emit (EvConsoleLogConnected (firstDeclarationName <$> tools)))
    (λ e, emit (EvConsoleLogFailed e);; throw e).

(** [(result.content as any)[0].text] inside the template literal: an
    empty content list makes the property access throw, and a first
    block without text is rendered as the word undefined. *)
Definition firstContentText (result : CallToolResult) : M R string :=
  match content result with
  | [] =>
      throw (TypeError "Cannot read properties of undefined (reading 'text')")
  | block :: _ => mret (default "undefined" (block_text block))
  end.

Definition callLine (toolName : string) (toolArgs : Args R) : string :=
  "[Calling tool " +:+ toolName +:+ " with args "
    +:+ JSON_stringify R toolArgs +:+ "]".

Definition followUp (resultText : string) : string :=
  "Using the following information, answer the original query: "
    +:+ resultText.

(** The body of the [for ... of] loop of [processQuery], run over the
    requested calls in order; [finalText] is the array being pushed
    to. *)
Fixpoint forEachFunctionCall (calls : list (FunctionCall (Args R)))
    (finalText : list string) : M R (list string) :=
  match calls with
  | [] => mret finalText
  | functionCall :: rest =>
      let toolName := fc_name functionCall in
      let toolArgs := fc_args functionCall in
      let finalText := finalText ++ [callLine toolName toolArgs] in
      result ← mcp_callTool toolName toolArgs;
      emit (EvConsoleLogResult result);;
      resultText ← firstContentText result;
      geminiResult ← session_sendMessage (followUp resultText);
      text ← settle (response_text geminiResult);
      forEachFunctionCall rest (finalText ++ [text])
  end.

Definition processQuery (query : string) : M R string :=
  result ← session_sendMessage query;
  text ← settle (response_text result);
  calls ← settle (response_functionCalls result);
  finalText ← forEachFunctionCall (default [] calls) [text];
  mret (join nl finalText).

(** [message.toLowerCase().trim() === "quit"] *)
Definition isQuit (message : string) : bool :=
  String.eqb (trim (toLowerCase message)) "quit".

(** The [while (true)] loop of [chatLoop], over the lines that standard
    input holds.  With no line left the question is never answered. *)
Fixpoint queryLoop (stdin : list string) : M R unit :=
  match stdin with
  | [] => pending
  | message :: rest =>
      emit (EvQuestion (nl +:+ "Query/Response: ") message);;
      if isQuit message then mret ()
      else
        response ← processQuery message;
        emit (EvConsoleLog (nl +:+ response));;
        queryLoop rest
  end.

Definition chatLoop (stdin : list string) : M R unit :=
  try_finally
    (try_catch
       (emit (EvConsoleLog (nl +:+ "MCP Client Started!"));;
        emit (EvConsoleLog "Type your queries or 'quit' to exit.");;
        queryLoop stdin)
       (λ err, emit (EvConsoleError err)))
    (emit EvReadlineClose).

Definition cleanup : M R unit := mcp_close.

Fixpoint connectAll (env : ProcessEnv) (paths : list string) : M R unit :=
  match paths with
  | [] => mret ()
  | path :: rest => connectToServer env path;; connectAll env rest
  end.

(** [main()] after the client has been constructed. *)
Definition mainBody (env : ProcessEnv) (stdin : list string) : M R unit :=
  try_finally
    (connectAll env SERVER_PATHS;; chatLoop stdin)
    (cleanup;; process_exit 0).

(** [main()]: how the promise it returns ends, and the trace of effects.
    The constructor call stands outside the [try].  Nothing handles the
    promise of [main], so [Throw] here is an unhandled rejection, on which
    the runtime ends the process abnormally; [Exit] carries the code
    passed to [process.exit]. *)
Definition main (env : ProcessEnv) (stdin : list string)
  : Completion unit * list (Event R) :=
  match newMCPClient env with
  | inl e => (Throw e, [])
  | inr w0 =>
      let '(c, w) := mainBody env stdin w0 in (c, trace w)
  end.
End ClientCode.

(** ** Vocabulary of the properties *)

(** A modifier layer, without the node it wraps. *)
Inductive Modifier : Type :=
  | MOptional (description : option string)
  | MNullable (description : option string)
  | MDefault (description : option string) (defaultValue : Literal).

Definition wrapWith (m : Modifier) (inner : ZodTypeAny) : ZodTypeAny :=
  match m with
  | MOptional d => ZodOptional d inner
  | MNullable d => ZodNullable d inner
  | MDefault d v => ZodDefault d inner v
  end.

(** [wrap [m1; ...; mk] base] is [m1 (... (mk base))]: outermost first. *)
Definition wrap (chain : list Modifier) (base : ZodTypeAny) : ZodTypeAny :=
  foldr wrapWith base chain.

Definition isWrapper (zodType : ZodTypeAny) : bool :=
  match zodType with
  | ZodOptional _ _ | ZodNullable _ _ | ZodDefault _ _ _ => true
  | _ => false
  end.

(** The unwrapping step as the specification words it, to compare with
    [unwrapWrappers]: while the node is Optional, Nullable or Default,
    replace it with its inner type. *)
Fixpoint unwrapAll (zodType : ZodTypeAny) : ZodTypeAny :=
  match zodType with
  | ZodOptional _ inner | ZodNullable _ inner | ZodDefault _ inner _ =>
      unwrapAll inner
  | _ => zodType
  end.

(** The base kinds the dispatch names. *)
Definition isRecognized (zodType : ZodTypeAny) : bool :=
  match zodType with
  | ZodString _ | ZodNumber _ _ | ZodBoolean _ | ZodEnum _ _
  | ZodArray _ _ | ZodObject _ _ => true
  | _ => false
  end.

Definition hasIntCheck (checks : option (list ZodNumberCheck)) : Prop :=
  ∃ chs ch, checks = Some chs ∧ ch ∈ chs ∧ kind ch = KindInt.

(** The lines that the loop has read, in order. *)
Definition questionsAsked {R : Runtime} (tr : list (Event R)) : list string :=
  omap (λ ev, match ev with EvQuestion _ answer => Some answer | _ => None end)
       tr.

(** The tool invocations made, in order. *)
Definition toolCalls {R : Runtime} (tr : list (Event R))
  : list (string * Args R) :=
  omap (λ ev, match ev with EvCallTool n a => Some (n, a) | _ => None end) tr.

(** [w] with further events on its trace. *)
Definition logged {R : Runtime} (w : World R) (events : list (Event R))
  : World R :=
  MkWorld (this_mcp w) (this_gemini w) (this_session w) (this_transport w)
          (this_tools w) (trace w ++ events).

(** A computation that reads no line of input and always settles: it
    ends with a value or an exception, never by leaving the process and
    never waiting for input. *)
Definition settles {R : Runtime} {A} (c : M R A) : Prop :=
  ∀ w, questionsAsked (trace (c w).2) = questionsAsked (trace w)
       ∧ ((∃ a, (c w).1 = Normal a) ∨ (∃ e, (c w).1 = Throw e)).

Definition notQuit (line : string) : Prop := isQuit line = false.

Section Environment.
Context {R : Runtime}.

(** The provider and the session answer a sequence of requested calls:
    every invocation returns a result with a first content block, and
    every follow-up message gets a response whose text can be read.
    [texts] are those response texts, [events] what the client does on
    the way, and the last two arguments are the states left behind. *)
Inductive RoundTrips :
  Client R → ChatSession R → list (FunctionCall (Args R)) →
  list string → list (Event R) → Client R → ChatSession R → Prop :=
| RoundTrips_nil c s : RoundTrips c s [] [] [] c s
| RoundTrips_cons c s call calls c1 result block blocks s1 resp text
                  texts events c' s' :
    callTool R c (fc_name call) (fc_args call) = (c1, inr result) →
    content result = block :: blocks →
    sendMessage R s (followUp (default "undefined" (block_text block)))
      = (s1, inr resp) →
    response_text resp = inr text →
    RoundTrips c1 s1 calls texts events c' s' →
    RoundTrips c s (call :: calls) (text :: texts)
      (EvCallTool (fc_name call) (fc_args call)
         :: EvConsoleLogResult result
         :: EvSendMessage
              (followUp (default "undefined" (block_text block)))
         :: events)
      c' s'.

(** A failure in the middle of the requested calls: after some completed
    round trips, either the provider invocation or the follow-up message
    to the session is rejected with [e]. *)
Inductive CallsFail :
  Client R → ChatSession R → list (FunctionCall (Args R)) → Exn → Prop :=
| CallsFail_tool c s call calls c1 e :
    callTool R c (fc_name call) (fc_args call) = (c1, inl e) →
    CallsFail c s (call :: calls) e
| CallsFail_followUp c s call calls c1 result block blocks s1 e :
    callTool R c (fc_name call) (fc_args call) = (c1, inr result) →
    content result = block :: blocks →
    sendMessage R s (followUp (default "undefined" (block_text block)))
      = (s1, inl e) →
    CallsFail c s (call :: calls) e
| CallsFail_later c s call calls c1 s1 texts events e :
    RoundTrips c s [call] texts events c1 s1 →
    CallsFail c1 s1 calls e →
    CallsFail c s (call :: calls) e.

(** A query fails: the first message to the session is rejected, or it
    is answered and one of the requested calls fails. *)
Inductive QueryFails :
  Client R → ChatSession R → string → Exn → Prop :=
| QueryFails_first c s query s1 e :
    sendMessage R s query = (s1, inl e) →
    QueryFails c s query e
| QueryFails_calls c s query s1 resp text calls e :
    sendMessage R s query = (s1, inr resp) →
    response_text resp = inr text →
    response_functionCalls resp = inr (Some calls) →
    CallsFail c s1 calls e →
    QueryFails c s query e.

(** The segments after the first: for each call its descriptive line,
    then the follow-up text. *)
Fixpoint callSegments (calls : list (FunctionCall (Args R)))
    (texts : list string) : list string :=
  match calls, texts with
  | call :: calls', text :: texts' =>
      callLine (fc_name call) (fc_args call) :: text
        :: callSegments calls' texts'
  | _, _ => []
  end.
End Environment.

(** ** A scripted runtime, for concrete runs *)

(** Arguments are carried already serialised.  A session is the list of
    replies it will still give and a provider client the list of results
    it will still return; a script that runs out rejects. *)
Definition scripted_next {A} (script : list (Exn + A))
  : list (Exn + A) * (Exn + A) :=
  match script with
  | [] => ([], inl (Error "script exhausted"))
  | r :: script' => (script', r)
  end.

Definition scriptedRuntime
    (replies : list (Exn + Response string))
    (connectResult : Exn + unit)
    (toolList : Exn + list Tool)
    (toolResults : list (Exn + CallToolResult))
    (closeResult : Exn + unit) : Runtime :=
  {| Args := string;
     JSON_stringify := λ a, a;
     GenerativeModel := unit;
     ChatSession := list (Exn + Response string);
     getGenerativeModel := λ _ _, ();
     startChat := λ _ _ _, replies;
     sendMessage := λ s _, scripted_next s;
     Client := list (Exn + CallToolResult);
     newClient := λ _ _, toolResults;
     connect := λ c _, (c, connectResult);
     listTools := λ c, (c, toolList);
     callTool := λ c _ _, scripted_next c;
     close := λ c, (c, closeResult) |}.

Definition sampleEnv : ProcessEnv :=
  MkProcessEnv (Some "secret") "linux" "/usr/bin/node".

Definition metadataTool : Tool :=
  MkTool "get_dataset_metadata" (Some "Fetch dataset metadata")
         (Some {[ "name" := ZodString None ]}).

Definition metadataCall : FunctionCall string :=
  MkFunctionCall "get_dataset_metadata" "{name:X}".

Definition textResult (t : string) : CallToolResult :=
  MkCallToolResult [MkContentBlock "text" (Some t)].

(** One query answered with one requested call, then a follow-up. *)
Definition oneCallRuntime : Runtime :=
  scriptedRuntime
    [inr (MkResponse (inr "Let me look.") (inr (Some [metadataCall])));
     inr (MkResponse (inr "X has 3 files.") (inr None))]
    (inr ()) (inr [metadataTool]) [inr (textResult "files: 3")] (inr ()).

(** The provider rejects every invocation. *)
Definition failingToolRuntime : Runtime :=
  scriptedRuntime
    [inr (MkResponse (inr "Let me look.") (inr (Some [metadataCall])));
     inr (MkResponse (inr "Hello.") (inr None))]
    (inr ()) (inr [metadataTool]) [inl (Error "tool failed")] (inr ()).

(** The connection attempt is rejected while the listing is answered. *)
Definition refusedConnectRuntime : Runtime :=
  scriptedRuntime [] (inl (Error "handshake refused")) (inr [metadataTool])
                  [] (inr ()).

(** The listing is rejected. *)
Definition failingListRuntime : Runtime :=
  scriptedRuntime [] (inr ()) (inl (Error "list failed")) [] (inr ()).

(** A plain answer with no requested call. *)
Definition plainRuntime : Runtime :=
  scriptedRuntime [inr (MkResponse (inr "Hi there.") (inr None))]
                  (inr ()) (inr [metadataTool]) [] (inr ()).

Definition connectedWorld (R : Runtime) (s : ChatSession R) : World R :=
  MkWorld (newClient R "mcp-client-cli" "1.0.0")
          (getGenerativeModel R "secret" "gemini-2.0-flash")
          (Some s) None [] [].

(** [z.number().int().optional().nullable().default(0)] *)
Definition wrappedInteger : ZodTypeAny :=
  ZodDefault None
    (ZodNullable None
       (ZodOptional None (ZodNumber None (Some [MkCheck KindInt None]))))
    (LitNumber 0).

(** ** Further vocabulary *)

(** Nesting depth of a source node, a measure for inductions that go
    through the fields of an object. *)
Fixpoint zod_depth (zodType : ZodTypeAny) : nat :=
  match zodType with
  | ZodOptional _ inner | ZodNullable _ inner | ZodDefault _ inner _ =>
      S (zod_depth inner)
  | ZodArray _ type => S (zod_depth type)
  | ZodObject _ shape =>
      S (map_fold (λ _ field acc, zod_depth field `max` acc) 0 shape)
  | _ => 0
  end.

(** [SubSchema s t]: [s] is [t] or sits inside it, under [items] or under
    an entry of [properties]. *)
Inductive SubSchema : Schema → Schema → Prop :=
  | SubSchema_here s : SubSchema s s
  | SubSchema_items s t u :
      schema_items t = Some u → SubSchema s u → SubSchema s t
  | SubSchema_property s t props key u :
      schema_properties t = Some props → props !! key = Some u →
      SubSchema s u → SubSchema s t.

(** The fields of one schema node fit its type. *)
Definition fieldsAgree (s : Schema) : Prop :=
  (is_Some (schema_items s) ↔ schema_type s = ARRAY)
  ∧ (is_Some (schema_properties s) ↔ schema_type s = OBJECT)
  ∧ (is_Some (schema_enum s) ↔ schema_format s = Some "enum")
  ∧ (is_Some (schema_enum s) → schema_type s = STRING)
  ∧ (schema_format s = None ∨ schema_format s = Some "enum")
  ∧ schema_required s = None.

Fixpoint allWhitespace (s : string) : bool :=
  match s with
  | EmptyString => true
  | String c s' => is_whitespace c && allWhitespace s'
  end.

(** The [command] that [connectToServer] computes for a script path. *)
Definition serverCommand (env : ProcessEnv) (serverScriptPath : string)
  : string :=
  if endsWith serverScriptPath ".py"
  then (if String.eqb (platform env) "win32" then "python" else "python3")
  else execPath env.

(** The fields of the client that a query has no business changing, and
    whether a session is installed. *)
Definition clientFrame {R : Runtime} (w : World R)
  : GenerativeModel R * option StdioClientTransport
    * list FunctionDeclarationsTool * bool :=
  (this_gemini w, this_transport w, this_tools w,
   match this_session w with Some _ => true | None => false end).

Definition keepsFrame {R : Runtime} {A} (c : M R A) : Prop :=
  ∀ w, clientFrame (c w).2 = clientFrame w.

Definition requestedCalls {R : Runtime}
    (calls : list (FunctionCall (Args R))) : list (string * Args R) :=
  (λ call, (fc_name call, fc_args call)) <$> calls.

(** The provider answers with an empty content list. *)
Definition emptyContentRuntime : Runtime :=
  scriptedRuntime
    [inr (MkResponse (inr "Let me look.") (inr (Some [metadataCall])));
     inr (MkResponse (inr "Never asked.") (inr None))]
    (inr ()) (inr [metadataTool]) [inr (MkCallToolResult [])] (inr ()).

(** The provider answers with a block that carries no text. *)
Definition imageContentRuntime : Runtime :=
  scriptedRuntime
    [inr (MkResponse (inr "Let me look.") (inr (Some [metadataCall])));
     inr (MkResponse (inr "I cannot see it.") (inr None))]
    (inr ()) (inr [metadataTool])
    [inr (MkCallToolResult [MkContentBlock "image" None])] (inr ()).

Definition listCall : FunctionCall string :=
  MkFunctionCall "list_files" "{name:X}".

(** One query answered with two requested calls. *)
Definition twoCallRuntime : Runtime :=
  scriptedRuntime
    [inr (MkResponse (inr "Two lookups.")
            (inr (Some [metadataCall; listCall])));
     inr (MkResponse (inr "X has 3 files.") (inr None));
     inr (MkResponse (inr "They are a, b, c.") (inr None))]
    (inr ()) (inr [metadataTool])
    [inr (textResult "files: 3"); inr (textResult "a b c")] (inr ()).

(** All characters of the string lie in the ASCII range, where
    [toLowerCase] and [trim] above are the library's functions. *)
Fixpoint isAscii (s : string) : bool :=
  match s with
  | EmptyString => true
  | String c s' => (nat_of_ascii c <? 128)%nat && isAscii s'
  end.

Definition asciiLines (stdin : list string) : Prop :=
  Forall (λ line, isAscii line = true) stdin.

(** No connection attempt to a configured endpoint is rejected, in
    whatever state the provider client is.  A rejection of the attempt is
    seen by nobody in the program (see [mcp_connect_unawaited]); what the
    runtime then does to the process lies outside this model, so the
    statements about how the process ends assume this. *)
Definition connectionsAccepted (R : Runtime) (env : ProcessEnv) : Prop :=
  ∀ c path,
    path ∈ SERVER_PATHS →
    (connect R c (MkTransport (serverCommand env path) [path])).2 = inr ().

(** [w] after the two banner lines of [chatLoop]. *)
Definition started {R : Runtime} (w : World R) : World R :=
  logged w [EvConsoleLog (nl +:+ "MCP Client Started!");
            EvConsoleLog "Type your queries or 'quit' to exit."].

(** The first query is answered plainly; the second requests a call that
    the provider rejects; a third would be answered. *)
Definition failingSecondRuntime : Runtime :=
  scriptedRuntime
    [inr (MkResponse (inr "Hi there.") (inr None));
     inr (MkResponse (inr "Let me look.") (inr (Some [metadataCall])));
     inr (MkResponse (inr "Still here.") (inr None))]
    (inr ()) (inr [metadataTool]) [inl (Error "tool failed")] (inr ()).

(** * Properties of the translator *)

Section Translator.
Implicit Types (z inner : ZodTypeAny) (d : option string).

(** The function body, with the recursion folded back. *)
Lemma zodTypeToGoogleSchema_unfold z :
  zodTypeToGoogleSchema z =
  match unwrapWrappers z with
  | ZodString d => plainSchema STRING d
  | ZodNumber d checks =>
      plainSchema (if isInt checks then INTEGER else NUMBER) d
  | ZodBoolean d => plainSchema BOOLEAN d
  | ZodEnum d values =>
      MkSchema STRING d (Some "enum") (Some values) None None None
  | ZodArray d type =>
      MkSchema ARRAY d None None (Some (zodTypeToGoogleSchema type)) None None
  | ZodObject d shape =>
      MkSchema OBJECT d None None None
               (Some (delete "__proto__" (zodTypeToGoogleSchema <$> shape)))
               None
  | (ZodOptional _ _ | ZodNullable _ _ | ZodDefault _ _ _ | ZodOther _ _)
    as z' => plainSchema STRING (zod_description z')
  end.
Proof. destruct z; reflexivity. Qed.

(** The translation depends on the node only through what the three
    conditionals leave. *)
Lemma zodTypeToGoogleSchema_unwrapped z z' :
  unwrapWrappers z = unwrapWrappers z' →
  zodTypeToGoogleSchema z = zodTypeToGoogleSchema z'.
Proof.
  intros Heq. rewrite (zodTypeToGoogleSchema_unfold z),
    (zodTypeToGoogleSchema_unfold z'), Heq. reflexivity.
Qed.

Lemma unwrapWrappers_base z : isWrapper z = false → unwrapWrappers z = z.
Proof. destruct z; intros H; first [discriminate H | reflexivity]. Qed.

Lemma unwrapAll_base z : isWrapper z = false → unwrapAll z = z.
Proof. destruct z; simpl; intros; congruence. Qed.

Lemma unwrapAll_is_base z : isWrapper (unwrapAll z) = false.
Proof. induction z; simpl; auto. Qed.

Lemma unwrapAll_unwrapOptionalNullable z :
  unwrapAll (unwrapOptionalNullable z) = unwrapAll z.
Proof. destruct z; reflexivity. Qed.

Lemma unwrapAll_unwrapDefault z :
  unwrapAll (unwrapDefault z) = unwrapAll z.
Proof. destruct z; reflexivity. Qed.

(** The three conditionals never unwrap past the base. *)
Lemma unwrapAll_unwrapWrappers z :
  unwrapAll (unwrapWrappers z) = unwrapAll z.
Proof.
  unfold unwrapWrappers.
  rewrite unwrapAll_unwrapOptionalNullable, unwrapAll_unwrapDefault.
  apply unwrapAll_unwrapOptionalNullable.
Qed.

Lemma unwrapAll_wrap chain z : unwrapAll (wrap chain z) = unwrapAll z.
Proof. induction chain as [|[]]; simpl; auto. Qed.

(** A node that still is a wrapper after the three conditionals takes
    the final branch. *)
Lemma zodTypeToGoogleSchema_leftover z :
  isWrapper (unwrapWrappers z) = true →
  zodTypeToGoogleSchema z =
  plainSchema STRING (zod_description (unwrapWrappers z)).
Proof.
  intros Hw. rewrite zodTypeToGoogleSchema_unfold.
  destruct (unwrapWrappers z); simpl in Hw; congruence.
Qed.

(** Chains that the three conditionals remove completely: at most one
    optional/nullable layer, then at most one default layer, then at most
    one optional/nullable layer. *)
Lemma unwrapWrappers_short_chain (outer middle inner_ : list Modifier) base :
  isWrapper base = false →
  (length outer ≤ 1)%nat → (length middle ≤ 1)%nat →
  (length inner_ ≤ 1)%nat →
  Forall (λ m, ∀ d v, m ≠ MDefault d v) outer →
  Forall (λ m, ∃ d v, m = MDefault d v) middle →
  Forall (λ m, ∀ d v, m ≠ MDefault d v) inner_ →
  unwrapWrappers (wrap (outer ++ middle ++ inner_) base) = base.
Proof.
  intros Hbase Ho Hm Hi Fo Fm Fi.
  destruct outer as [|o [|]]; simpl in Ho; try lia;
  destruct middle as [|m [|]]; simpl in Hm; try lia;
  destruct inner_ as [|i [|]]; simpl in Hi; try lia;
  repeat match goal with
  | H : Forall _ (_ :: _) |- _ => inversion H; subst; clear H
  | H : ∃ d v, _ = MDefault d v |- _ => destruct H as (? & ? & ->)
  end;
  repeat match goal with
  | x : Modifier |- _ => destruct x
  end;
  first [ by (exfalso; naive_solver)
        | by (destruct base; first [discriminate Hbase | reflexivity]) ].
Qed.
End Translator.

Lemma isInt_spec (checks : option (list ZodNumberCheck)) :
  isInt checks = true ↔ hasIntCheck checks.
Proof.
  unfold isInt, hasIntCheck. destruct checks as [chs|].
  - rewrite existsb_exists. split.
    + intros (ch & Hin & Hk). exists chs, ch. split; [done|].
      split; [by apply list_elem_of_In|]. by destruct (kind ch).
    + intros (chs' & ch & [= <-] & Hin & Hk). exists ch.
      split; [by apply list_elem_of_In|]. by rewrite Hk.
  - split; [done|]. by intros (? & ? & ? & _).
Qed.

(** When the chain has the shape of [unwrapWrappers_short_chain], the
    wrapped node and its base translate alike. *)
Lemma modifier_invariance_short_chain
    (outer middle inner_ : list Modifier) (base : ZodTypeAny) :
  isWrapper base = false →
  (length outer ≤ 1)%nat → (length middle ≤ 1)%nat →
  (length inner_ ≤ 1)%nat →
  Forall (λ m, ∀ d v, m ≠ MDefault d v) outer →
  Forall (λ m, ∃ d v, m = MDefault d v) middle →
  Forall (λ m, ∀ d v, m ≠ MDefault d v) inner_ →
  zodTypeToGoogleSchema (wrap (outer ++ middle ++ inner_) base)
  = zodTypeToGoogleSchema base.
Proof.
  intros Hbase ? ? ? ? ? ?. apply zodTypeToGoogleSchema_unwrapped.
  rewrite unwrapWrappers_short_chain by done.
  symmetry. by apply unwrapWrappers_base.
Qed.

(** C1. Modifier invariance asks that a node wrapped in any chain of
    Optional/Nullable/Default translates like its fully unwrapped base.
    The source unwraps with three conditionals, so at the chain
    Default(Nullable(Optional(_))) around an integer Number one wrapper is
    left over: the wrapped node translates to a string schema while its
    base translates to an integer schema. *)
Theorem modifier_invariance_breaks_on_wrappedInteger :
  wrappedInteger
    = wrap [MDefault None (LitNumber 0); MNullable None; MOptional None]
           (ZodNumber None (Some [MkCheck KindInt None]))
  ∧ unwrapAll wrappedInteger = ZodNumber None (Some [MkCheck KindInt None])
  ∧ zodTypeToGoogleSchema wrappedInteger = plainSchema STRING None
  ∧ zodTypeToGoogleSchema (unwrapAll wrappedInteger) = plainSchema INTEGER None.
Proof. repeat split. Qed.

(** C4. The translator is a total function (a structural recursion that
    returns a schema for every node), and for every node whose fully
    unwrapped base kind is none of String, Number, Boolean, Enum, Array,
    Object it returns a schema of kind string with no other field than
    the description. *)
Theorem unrecognized_kind_translates_to_string (z : ZodTypeAny) :
  isRecognized (unwrapAll z) = false →
  ∃ s, zodTypeToGoogleSchema z = s
       ∧ schema_type s = STRING
       ∧ s = plainSchema STRING (zod_description (unwrapWrappers z)).
Proof.
  intros Hunrec. eexists. split; [reflexivity|].
  assert (zodTypeToGoogleSchema z
          = plainSchema STRING (zod_description (unwrapWrappers z))) as ->;
    [|done].
  destruct (isWrapper (unwrapWrappers z)) eqn:Hw.
  - by apply zodTypeToGoogleSchema_leftover.
  - rewrite <- unwrapAll_unwrapWrappers, (unwrapAll_base _ Hw) in Hunrec.
    rewrite zodTypeToGoogleSchema_unfold.
    destruct (unwrapWrappers z); simpl in *; congruence.
Qed.

Lemma unrecognized_kind_translates_to_string_witness :
  isRecognized (unwrapAll (ZodOptional None (ZodOther "ZodDate" (Some "when"))))
    = false
  ∧ zodTypeToGoogleSchema (ZodOptional None (ZodOther "ZodDate" (Some "when")))
    = plainSchema STRING (Some "when").
Proof.
  split; [reflexivity|].
  destruct (unrecognized_kind_translates_to_string
              (ZodOptional None (ZodOther "ZodDate" (Some "when"))) eq_refl)
    as (s & <- & _ & Hs).
  exact Hs.
Defined.

(** C5. An Enum node translates to kind string with format marker "enum"
    and the value list copied in the original order; Enum(["a","b"]) gives
    {kind: string, format: "enum", enum: ["a","b"]}. *)
Theorem enum_translation :
  (∀ (d : option string) (values : list string),
     zodTypeToGoogleSchema (ZodEnum d values)
     = MkSchema STRING d (Some "enum") (Some values) None None None)
  ∧ zodTypeToGoogleSchema (ZodEnum None ["a"; "b"])
    = MkSchema STRING None (Some "enum") (Some ["a"; "b"]) None None None.
Proof. split; reflexivity. Qed.

(** An Object node translates to kind object with [properties] always
    present.  Every field of the shape other than one named __proto__ is
    mapped to the translation of its field type, and these are all the
    keys; a Number field becomes integer exactly when it carries an int
    check and number otherwise; the empty Object gives an empty
    properties map. *)
Theorem object_properties_translation :
  (∀ (d : option string) (shape : gmap string ZodTypeAny),
     ∃ properties : gmap string Schema,
       zodTypeToGoogleSchema (ZodObject d shape)
       = MkSchema OBJECT d None None None (Some properties) None
       ∧ (∀ key, key ≠ "__proto__" →
                 properties !! key = zodTypeToGoogleSchema <$> shape !! key)
       ∧ properties !! "__proto__" = None
       ∧ dom properties = dom shape ∖ {[ "__proto__" ]})
  ∧ (∀ (d : option string) checks,
       (hasIntCheck checks →
        zodTypeToGoogleSchema (ZodNumber d checks)
        = MkSchema INTEGER d None None None None None)
       ∧ (¬ hasIntCheck checks →
          zodTypeToGoogleSchema (ZodNumber d checks)
          = MkSchema NUMBER d None None None None None))
  ∧ zodTypeToGoogleSchema (ZodObject None ∅)
    = MkSchema OBJECT None None None None (Some ∅) None
  ∧ zodTypeToGoogleSchema
      (ZodObject None
         {[ "x" := ZodNumber None (Some [MkCheck KindInt None]);
            "y" := ZodString None ]})
    = MkSchema OBJECT None None None None
        (Some {[ "x" := MkSchema INTEGER None None None None None None;
                 "y" := MkSchema STRING None None None None None None ]})
        None.
Proof.
  split; [|split; [|split]].
  - intros d shape.
    exists (delete "__proto__" (zodTypeToGoogleSchema <$> shape)).
    split; [reflexivity|]. split; [|split].
    + intros key Hkey. rewrite lookup_delete_ne by done. apply lookup_fmap.
    + apply lookup_delete_eq.
    + by rewrite dom_delete_L, dom_fmap_L.
  - intros d checks. rewrite <- isInt_spec. simpl.
    destruct (isInt checks); split; intros H; try reflexivity; congruence.
  - simpl. by rewrite fmap_empty, delete_empty.
  - vm_compute. reflexivity.
Qed.

Lemma object_properties_translation_witness :
  hasIntCheck (Some [MkCheck KindInt None])
  ∧ zodTypeToGoogleSchema (ZodNumber None (Some [MkCheck KindInt None]))
    = MkSchema INTEGER None None None None None None
  ∧ ¬ hasIntCheck (Some [MkCheck KindMin None])
  ∧ zodTypeToGoogleSchema (ZodNumber None (Some [MkCheck KindMin None]))
    = MkSchema NUMBER None None None None None None.
Proof.
  destruct object_properties_translation as (_ & Hnum & _).
  assert (hasIntCheck (Some [MkCheck KindInt None])) as Hint.
  { exists [MkCheck KindInt None], (MkCheck KindInt None).
    split; [reflexivity|]. split; [apply list_elem_of_here | reflexivity]. }
  assert (¬ hasIntCheck (Some [MkCheck KindMin None])) as Hnot.
  { rewrite <- isInt_spec. simpl. discriminate. }
  split; [exact Hint|]. split; [exact (proj1 (Hnum None _) Hint)|].
  split; [exact Hnot|]. exact (proj2 (Hnum None _) Hnot).
Defined.

(** C6. The properties of a translated Object should send each field
    name to the translation of its field type.  The source fills them by
    assignment, and the assignment to a field named __proto__ sets the
    prototype instead of adding a key: for the Object with the fields
    __proto__ (a String) and x (an integer Number), the properties hold
    x alone. *)
Theorem object_translation_loses_proto_field :
  ({[ "__proto__" := ZodString None;
      "x" := ZodNumber None (Some [MkCheck KindInt None]) ]}
     : gmap string ZodTypeAny) !! "__proto__"
  = Some (ZodString None)
  ∧ zodTypeToGoogleSchema
      (ZodObject None
         {[ "__proto__" := ZodString None;
            "x" := ZodNumber None (Some [MkCheck KindInt None]) ]})
    = MkSchema OBJECT None None None None
        (Some {[ "x" := MkSchema INTEGER None None None None None None ]})
        None.
Proof. split; vm_compute; reflexivity. Qed.

(** * Properties of the client *)

Section ClientProofs.
Context {R : Runtime}.
Implicit Types (w : World R) (e : Exn).

(** ** Stepping through the monad *)

Lemma bind_normal {A B} (c : M R A) (k : A → M R B) w a w' :
  c w = (Normal a, w') → (c ≫= k) w = k a w'.
Proof. intros H. unfold mbind, M_bind. by rewrite H. Qed.

Lemma bind_throw {A B} (c : M R A) (k : A → M R B) w e w' :
  c w = (Throw e, w') → (c ≫= k) w = (Throw e, w').
Proof. intros H. unfold mbind, M_bind. by rewrite H. Qed.

Lemma bind_pending {A B} (c : M R A) (k : A → M R B) w w' :
  c w = (Pending, w') → (c ≫= k) w = (Pending, w').
Proof. intros H. unfold mbind, M_bind. by rewrite H. Qed.

Lemma bind_exit {A B} (c : M R A) (k : A → M R B) w n w' :
  c w = (Exit n, w') → (c ≫= k) w = (Exit n, w').
Proof. intros H. unfold mbind, M_bind. by rewrite H. Qed.

Lemma session_sendMessage_ok w s text s1 resp :
  this_session w = Some s →
  sendMessage R s text = (s1, inr resp) →
  session_sendMessage text w
  = (Normal resp,
     MkWorld (this_mcp w) (this_gemini w) (Some s1) (this_transport w)
             (this_tools w) (trace w ++ [EvSendMessage text])).
Proof.
  intros Hs Hsend. unfold session_sendMessage, mbind, M_bind; simpl.
  rewrite Hs; simpl. by rewrite Hsend.
Qed.

Lemma session_sendMessage_rejected w s text s1 e :
  this_session w = Some s →
  sendMessage R s text = (s1, inl e) →
  session_sendMessage text w
  = (Throw e,
     MkWorld (this_mcp w) (this_gemini w) (Some s1) (this_transport w)
             (this_tools w) (trace w ++ [EvSendMessage text])).
Proof.
  intros Hs Hsend. unfold session_sendMessage, mbind, M_bind; simpl.
  rewrite Hs; simpl. by rewrite Hsend.
Qed.

Lemma mcp_callTool_ok w name arguments c1 result :
  callTool R (this_mcp w) name arguments = (c1, inr result) →
  mcp_callTool name arguments w
  = (Normal result,
     MkWorld c1 (this_gemini w) (this_session w) (this_transport w)
             (this_tools w) (trace w ++ [EvCallTool name arguments])).
Proof.
  intros Hcall. unfold mcp_callTool, mbind, M_bind; simpl.
  by rewrite Hcall.
Qed.

Lemma mcp_callTool_rejected w name arguments c1 e :
  callTool R (this_mcp w) name arguments = (c1, inl e) →
  mcp_callTool name arguments w
  = (Throw e,
     MkWorld c1 (this_gemini w) (this_session w) (this_transport w)
             (this_tools w) (trace w ++ [EvCallTool name arguments])).
Proof.
  intros Hcall. unfold mcp_callTool, mbind, M_bind; simpl.
  by rewrite Hcall.
Qed.

Lemma mcp_listTools_ok w c1 tools :
  listTools R (this_mcp w) = (c1, inr tools) →
  mcp_listTools w
  = (Normal tools,
     MkWorld c1 (this_gemini w) (this_session w) (this_transport w)
             (this_tools w) (trace w ++ [EvListTools])).
Proof.
  intros Hlist. unfold mcp_listTools, mbind, M_bind; simpl.
  by rewrite Hlist.
Qed.

Lemma mcp_listTools_rejected w c1 e :
  listTools R (this_mcp w) = (c1, inl e) →
  mcp_listTools w
  = (Throw e,
     MkWorld c1 (this_gemini w) (this_session w) (this_transport w)
             (this_tools w) (trace w ++ [EvListTools])).
Proof.
  intros Hlist. unfold mcp_listTools, mbind, M_bind; simpl.
  by rewrite Hlist.
Qed.

(** ** processTools *)

End ClientProofs.


Section QueryProofs.
Context {R : Runtime}.
Implicit Types (w : World R) (e : Exn).

(** ** processQuery *)

(** The loop over the requested calls when every round trip succeeds. *)
Lemma forEachFunctionCall_RoundTrips calls :
  ∀ w s finalText texts events c' s',
    this_session w = Some s →
    RoundTrips (this_mcp w) s calls texts events c' s' →
    forEachFunctionCall calls finalText w
    = (Normal (finalText ++ callSegments calls texts),
       MkWorld c' (this_gemini w) (Some s') (this_transport w)
               (this_tools w) (trace w ++ events)).
Proof.
  induction calls as [|call calls IH];
    intros w s finalText texts events c' s' Hs Hrt; inversion Hrt; subst.
  - simpl. rewrite !app_nil_r. unfold mret, M_ret.
    destruct w; simpl in *; by subst.
  - cbn [forEachFunctionCall].
    erewrite bind_normal; [|by apply mcp_callTool_ok].
    erewrite bind_normal; [|reflexivity].
    erewrite bind_normal;
      [|unfold firstContentText;
        match goal with H : content _ = _ |- _ => rewrite H end;
        reflexivity].
    erewrite bind_normal;
      [|by eapply session_sendMessage_ok; [exact Hs|]].
    erewrite bind_normal;
      [|match goal with H : response_text _ = _ |- _ => rewrite H end;
        reflexivity].
    erewrite IH; [|reflexivity|eassumption].
    cbn [this_mcp this_gemini this_session this_transport this_tools trace
         callSegments].
    rewrite <- !(assoc_L (++)). reflexivity.
Qed.

Lemma RoundTrips_lengths c s calls texts (events : list (Event R)) c' s' :
  RoundTrips c s calls texts events c' s' →
  length texts = length calls
  ∧ toolCalls events = (λ call, (fc_name call, fc_args call)) <$> calls.
Proof.
  induction 1; [done|].
  match goal with IH : _ ∧ _ |- _ => destruct IH as [IHl IHc] end.
  split; simpl; [by rewrite IHl|]. unfold toolCalls in *. simpl.
  by rewrite IHc.
Qed.

Lemma callSegments_length (calls : list (FunctionCall (Args R))) :
  ∀ texts, length texts = length calls →
           length (callSegments calls texts) = (2 * length calls)%nat.
Proof.
  induction calls as [|call calls IH]; intros [|text texts] Hlen;
    simpl in *; try done.
  rewrite IH by lia. lia.
Qed.

(** C2. When the model's response to a query requests the calls [calls]
    and every round trip succeeds, processQuery returns the initial text
    followed, for each call in the model's order, by the line naming the
    tool and its serialised arguments and then by the text of the
    session's response to the injected tool result, all joined by line
    breaks: 1 + 2k segments for k calls, so three for one call.  The
    provider sees the calls in that order, and every message goes to the
    one session whose state is threaded through. *)
Theorem processQuery_tool_calls w s query s1 resp text calls texts events
    c' s' :
  this_session w = Some s →
  sendMessage R s query = (s1, inr resp) →
  response_text resp = inr text →
  response_functionCalls resp = inr (Some calls) →
  RoundTrips (this_mcp w) s1 calls texts events c' s' →
  processQuery query w
  = (Normal (join nl (text :: callSegments calls texts)),
     MkWorld c' (this_gemini w) (Some s') (this_transport w) (this_tools w)
             (trace w ++ EvSendMessage query :: events))
  ∧ length (text :: callSegments calls texts) = (1 + 2 * length calls)%nat
  ∧ toolCalls events = (λ call, (fc_name call, fc_args call)) <$> calls.
Proof.
  intros Hs Hsend Htext Hcalls Hrt.
  destruct (RoundTrips_lengths _ _ _ _ _ _ _ Hrt) as [Hlen Htc].
  split; [|split; [|exact Htc]].
  - unfold processQuery.
    erewrite bind_normal; [|by eapply session_sendMessage_ok].
    erewrite bind_normal; [|by rewrite Htext].
    erewrite bind_normal; [|by rewrite Hcalls].
    erewrite bind_normal;
      [|by eapply forEachFunctionCall_RoundTrips; [reflexivity|exact Hrt]].
    cbn [this_mcp this_gemini this_session this_transport this_tools trace].
    unfold mret, M_ret. rewrite <- (assoc_L (++)). reflexivity.
  - simpl. by rewrite callSegments_length.
Qed.

(** C10. When the model's response requests no call, whether its
    accessor yields an empty list or no list at all, processQuery makes
    no provider invocation (the only effect is the one message sent to
    the session) and returns exactly the response's text. *)
Theorem processQuery_no_calls w s query s1 resp text :
  this_session w = Some s →
  sendMessage R s query = (s1, inr resp) →
  response_text resp = inr text →
  response_functionCalls resp = inr None
  ∨ response_functionCalls resp = inr (Some []) →
  processQuery query w
  = (Normal text,
     MkWorld (this_mcp w) (this_gemini w) (Some s1) (this_transport w)
             (this_tools w) (trace w ++ [EvSendMessage query]))
  ∧ toolCalls (trace w ++ [EvSendMessage query]) = toolCalls (trace w).
Proof.
  intros Hs Hsend Htext Hcalls. split.
  - unfold processQuery.
    erewrite bind_normal; [|by eapply session_sendMessage_ok].
    erewrite bind_normal; [|by rewrite Htext].
    destruct Hcalls as [Hcalls|Hcalls];
      (erewrite bind_normal; [|by rewrite Hcalls]); reflexivity.
  - unfold toolCalls. rewrite omap_app. simpl. by rewrite app_nil_r.
Qed.
End QueryProofs.

Lemma processQuery_tool_calls_witness :
  processQuery (R:=oneCallRuntime) "describe dataset X"
    (connectedWorld oneCallRuntime
       (startChat oneCallRuntime () SYSTEM_PROMPT []))
  = (Normal ("Let me look." +:+ nl
               +:+ "[Calling tool get_dataset_metadata with args {name:X}]"
               +:+ nl +:+ "X has 3 files."),
     @MkWorld oneCallRuntime [] () (Some []) None []
       [EvSendMessage "describe dataset X";
        @EvCallTool oneCallRuntime "get_dataset_metadata" "{name:X}";
        EvConsoleLogResult (textResult "files: 3");
        EvSendMessage
          "Using the following information, answer the original query: files: 3"]).
Proof.
  refine (proj1 (processQuery_tool_calls (R:=oneCallRuntime)
    (connectedWorld oneCallRuntime
       (startChat oneCallRuntime () SYSTEM_PROMPT []))
    _ "describe dataset X" _ _ "Let me look." [metadataCall]
    ["X has 3 files."] _ [] [] eq_refl eq_refl eq_refl eq_refl _)).
  eapply (RoundTrips_cons (R:=oneCallRuntime) _ _ metadataCall [] _
            (textResult "files: 3") (MkContentBlock "text" (Some "files: 3"))
            [] _ _ "X has 3 files." [] []); try reflexivity.
  apply (RoundTrips_nil (R:=oneCallRuntime)).
Defined.

Lemma processQuery_no_calls_witness :
  processQuery (R:=plainRuntime) "hello"
    (connectedWorld plainRuntime (startChat plainRuntime () SYSTEM_PROMPT []))
  = (Normal "Hi there.",
     @MkWorld plainRuntime [] () (Some []) None [] [EvSendMessage "hello"]).
Proof.
  exact (proj1 (processQuery_no_calls (R:=plainRuntime)
    (connectedWorld plainRuntime (startChat plainRuntime () SYSTEM_PROMPT []))
    _ "hello" _ _ "Hi there." eq_refl eq_refl eq_refl (or_introl eq_refl))).
Defined.

Section Settling.
Context {R : Runtime}.
Implicit Types (w : World R) (e : Exn).

(** ** Computations that settle without reading input *)

Lemma settles_ret {A} (a : A) : settles (R:=R) (mret a).
Proof. intros w. simpl. eauto. Qed.

Lemma settles_throw {A} e : settles (R:=R) (throw (A:=A) e).
Proof. intros w. simpl. eauto. Qed.

Lemma settles_bind {A B} (c : M R A) (k : A → M R B) :
  settles c → (∀ a, settles (k a)) → settles (c ≫= k).
Proof.
  intros Hc Hk w. specialize (Hc w). unfold mbind, M_bind.
  destruct (c w) as [[a|e|n|] w']; simpl in Hc; destruct Hc as [Hq Hc].
  - specialize (Hk a w'). rewrite <- Hq. exact Hk.
  - simpl. eauto.
  - destruct Hc as [[? ?]|[? ?]]; discriminate.
  - destruct Hc as [[? ?]|[? ?]]; discriminate.
Qed.

Lemma settles_emit (ev : Event R) :
  questionsAsked [ev] = [] → settles (emit ev).
Proof.
  intros Hev w. simpl. split; [|eauto].
  unfold questionsAsked in *. rewrite omap_app, Hev. apply app_nil_r.
Qed.

Lemma settles_get_world : settles (R:=R) get_world.
Proof. intros w. simpl. eauto. Qed.

Lemma settles_set_mcp c : settles (R:=R) (set_mcp c).
Proof. intros w. simpl. eauto. Qed.

Lemma settles_set_session s : settles (R:=R) (set_session s).
Proof. intros w. simpl. eauto. Qed.

Lemma settles_set_transport t : settles (R:=R) (set_transport t).
Proof. intros w. simpl. eauto. Qed.

Lemma settles_set_tools ts : settles (R:=R) (set_tools ts).
Proof. intros w. simpl. eauto. Qed.

Lemma settles_settle {A} (r : Exn + A) : settles (R:=R) (settle r).
Proof. destruct r; [apply settles_throw | apply settles_ret]. Qed.

Lemma settles_try_catch {A} (body : M R A) (handler : Exn → M R A) :
  settles body → (∀ e, settles (handler e)) →
  settles (try_catch body handler).
Proof.
  intros Hb Hh w. specialize (Hb w). unfold try_catch.
  destruct (body w) as [[a|e|n|] w']; simpl in Hb; destruct Hb as [Hq Hb].
  - simpl. eauto.
  - specialize (Hh e w'). rewrite <- Hq. exact Hh.
  - destruct Hb as [[? ?]|[? ?]]; discriminate.
  - destruct Hb as [[? ?]|[? ?]]; discriminate.
Qed.

Local Ltac settle_steps :=
  repeat first
    [ apply settles_bind; [|intros ?]
    | apply settles_get_world
    | apply settles_emit; reflexivity
    | apply settles_set_mcp
    | apply settles_set_session
    | apply settles_set_transport
    | apply settles_set_tools
    | apply settles_settle
    | apply settles_ret
    | apply settles_throw ].

Lemma settles_session_sendMessage text :
  settles (R:=R) (session_sendMessage text).
Proof.
  unfold session_sendMessage. apply settles_bind; [settle_steps|].
  intros w. destruct (this_session w) as [s|]; [|settle_steps].
  apply settles_bind; [settle_steps|]. intros _.
  destruct (sendMessage R s text). settle_steps.
Qed.

Lemma settles_mcp_callTool name arguments :
  settles (R:=R) (mcp_callTool name arguments).
Proof.
  unfold mcp_callTool. apply settles_bind; [settle_steps|]. intros w.
  apply settles_bind; [settle_steps|]. intros _.
  destruct (callTool R (this_mcp w) name arguments). settle_steps.
Qed.

Lemma settles_mcp_listTools : settles (R:=R) mcp_listTools.
Proof.
  unfold mcp_listTools. apply settles_bind; [settle_steps|]. intros w.
  apply settles_bind; [settle_steps|]. intros _.
  destruct (listTools R (this_mcp w)). settle_steps.
Qed.

Lemma settles_mcp_connect_unawaited t :
  settles (R:=R) (mcp_connect_unawaited t).
Proof.
  unfold mcp_connect_unawaited. apply settles_bind; [settle_steps|].
  intros w. apply settles_bind; [settle_steps|]. intros _.
  destruct (connect R (this_mcp w) t). settle_steps.
Qed.

Lemma settles_mcp_close : settles (R:=R) mcp_close.
Proof.
  unfold mcp_close. apply settles_bind; [settle_steps|]. intros w.
  apply settles_bind; [settle_steps|]. intros _.
  destruct (close R (this_mcp w)). settle_steps.
Qed.

Lemma settles_firstContentText result :
  settles (R:=R) (firstContentText result).
Proof. unfold firstContentText. destruct (content result); settle_steps. Qed.

Lemma settles_forEachFunctionCall calls :
  ∀ finalText, settles (R:=R) (forEachFunctionCall calls finalText).
Proof.
  induction calls as [|call calls IH]; intros finalText; simpl.
  - apply settles_ret.
  - apply settles_bind; [apply settles_mcp_callTool|]. intros result.
    apply settles_bind; [settle_steps|]. intros _.
    apply settles_bind; [apply settles_firstContentText|]. intros t.
    apply settles_bind; [apply settles_session_sendMessage|]. intros r.
    apply settles_bind; [settle_steps|]. intros text. apply IH.
Qed.

Lemma settles_processQuery query : settles (R:=R) (processQuery query).
Proof.
  unfold processQuery.
  apply settles_bind; [apply settles_session_sendMessage|]. intros r.
  apply settles_bind; [settle_steps|]. intros text.
  apply settles_bind; [settle_steps|]. intros calls.
  apply settles_bind; [apply settles_forEachFunctionCall|]. intros ft.
  apply settles_ret.
Qed.

Lemma settles_processTools : settles (R:=R) processTools.
Proof.
  unfold processTools. apply settles_bind; [apply settles_mcp_listTools|].
  intros tools. apply settles_ret.
Qed.

Lemma settles_connectToServer env path :
  settles (R:=R) (connectToServer env path).
Proof.
  unfold connectToServer. apply settles_try_catch.
  - destruct (negb (endsWith path ".js") && negb (endsWith path ".py"));
      [apply settles_throw|].
    apply settles_bind; [settle_steps|]. intros _.
    apply settles_bind; [apply settles_mcp_connect_unawaited|]. intros _.
    apply settles_bind; [apply settles_processTools|]. intros tools.
    settle_steps.
  - intros e. settle_steps.
Qed.

Lemma settles_connectAll env paths : settles (R:=R) (connectAll env paths).
Proof.
  induction paths as [|path paths IH]; simpl; [apply settles_ret|].
  apply settles_bind; [apply settles_connectToServer|]. intros _. exact IH.
Qed.
End Settling.

Section LoopProofs.
Context {R : Runtime}.
Implicit Types (w : World R) (e : Exn).

(** ** Failing queries *)

Lemma emit_logged (ev : Event R) w : emit ev w = (Normal (), logged w [ev]).
Proof. reflexivity. Qed.

Lemma logged_logged w (evs1 evs2 : list (Event R)) :
  logged (logged w evs1) evs2 = logged w (evs1 ++ evs2).
Proof. unfold logged. simpl. by rewrite (assoc_L (++)). Qed.

Lemma questionsAsked_app (tr1 tr2 : list (Event R)) :
  questionsAsked (tr1 ++ tr2) = questionsAsked tr1 ++ questionsAsked tr2.
Proof. apply omap_app. Qed.

Lemma try_catch_throw {A} (body : M R A) handler w e w' :
  body w = (Throw e, w') → try_catch body handler w = handler e w'.
Proof. intros H. unfold try_catch. by rewrite H. Qed.

Lemma try_catch_normal {A} (body : M R A) handler w a w' :
  body w = (Normal a, w') → try_catch body handler w = (Normal a, w').
Proof. intros H. unfold try_catch. by rewrite H. Qed.

Lemma try_catch_pending {A} (body : M R A) handler w w' :
  body w = (Pending, w') → try_catch body handler w = (Pending, w').
Proof. intros H. unfold try_catch. by rewrite H. Qed.

Lemma forEachFunctionCall_CallsFail c s calls e :
  CallsFail c s calls e →
  ∀ w finalText,
    this_mcp w = c → this_session w = Some s →
    ∃ w', forEachFunctionCall calls finalText w = (Throw e, w').
Proof.
  induction 1 as [c s call calls c1 e Hcall
                 |c s call calls c1 result block blocks s1 e Hcall Hcontent Hsend
                 |c s call calls c1 s1 texts events e Hrt Hfail IH];
    intros w finalText Hc Hs; subst c; cbn [forEachFunctionCall].
  - eexists. erewrite bind_throw; [reflexivity|].
    by apply mcp_callTool_rejected.
  - eexists.
    erewrite bind_normal; [|by apply mcp_callTool_ok].
    erewrite bind_normal; [|reflexivity].
    erewrite bind_normal;
      [|unfold firstContentText; rewrite Hcontent; reflexivity].
    erewrite bind_throw; [reflexivity|].
    by eapply session_sendMessage_rejected; [exact Hs|].
  - inversion Hrt as [|? ? ? ? c1' result block blocks s1' resp text ? ?
                       ? ? Hcall Hcontent Hsend Htext Hnil]; subst.
    inversion Hnil; subst.
    erewrite bind_normal; [|by apply mcp_callTool_ok].
    erewrite bind_normal; [|reflexivity].
    erewrite bind_normal;
      [|unfold firstContentText; rewrite Hcontent; reflexivity].
    erewrite bind_normal;
      [|by eapply session_sendMessage_ok; [exact Hs|]].
    erewrite bind_normal; [|rewrite Htext; reflexivity].
    apply IH; reflexivity.
Qed.

(** A failing provider invocation or session call makes the whole query
    throw: the segments collected so far are not returned. *)
Lemma processQuery_QueryFails w s query e :
  this_session w = Some s →
  QueryFails (this_mcp w) s query e →
  ∃ w', processQuery query w = (Throw e, w').
Proof.
  intros Hs Hfail. unfold processQuery.
  inversion Hfail as [? ? ? s1 ? Hsend|? ? ? s1 resp text calls ? Hsend Htext
                                        Hcalls Hcf]; subst.
  - eexists. erewrite bind_throw; [reflexivity|].
    by eapply session_sendMessage_rejected.
  - erewrite bind_normal; [|by eapply session_sendMessage_ok].
    erewrite bind_normal; [|by rewrite Htext].
    erewrite bind_normal; [|by rewrite Hcalls].
    edestruct (forEachFunctionCall_CallsFail _ _ _ _ Hcf) as [w' Hw'];
      [| |erewrite bind_throw; [eexists; reflexivity|exact Hw']];
      reflexivity.
Qed.

(** The loop of [chatLoop] at a line whose query throws. *)
Lemma chatLoop_query_throws w query rest e w' :
  isQuit query = false →
  processQuery query
    (logged w [EvConsoleLog (nl +:+ "MCP Client Started!");
               EvConsoleLog "Type your queries or 'quit' to exit.";
               EvQuestion (nl +:+ "Query/Response: ") query])
  = (Throw e, w') →
  chatLoop (query :: rest) w
  = (Normal (), logged w' [EvConsoleError e; EvReadlineClose]).
Proof.
  intros Hquit Hquery. unfold chatLoop, try_finally.
  erewrite try_catch_throw.
  - rewrite emit_logged, emit_logged, logged_logged. reflexivity.
  - erewrite bind_normal; [|apply emit_logged].
    erewrite bind_normal; [|apply emit_logged].
    cbn [queryLoop].
    erewrite bind_normal; [|apply emit_logged].
    rewrite Hquit, !logged_logged. cbn [app].
    erewrite bind_throw; [reflexivity|exact Hquery].
Qed.

End LoopProofs.

(** C3 as stated fails: with a provider whose invocation is rejected and
    two lines of input, the first query throws and chatLoop returns
    without ever reading the second line. *)
Lemma chatLoop_does_not_read_after_failure :
  (∃ w1, processQuery (R:=failingToolRuntime) "describe dataset X"
           (connectedWorld failingToolRuntime
              (startChat failingToolRuntime () SYSTEM_PROMPT []))
         = (Throw (Error "tool failed"), w1))
  ∧ ∃ w2, chatLoop (R:=failingToolRuntime) ["describe dataset X"; "hello"]
            (connectedWorld failingToolRuntime
               (startChat failingToolRuntime () SYSTEM_PROMPT []))
          = (Normal (), w2)
          ∧ "hello" ∉ questionsAsked (trace w2).
Proof.
  split; [eexists; vm_compute; reflexivity|].
  eexists. split; [vm_compute; reflexivity|].
  simpl. intros Hin. apply list_elem_of_singleton in Hin. discriminate Hin.
Qed.

Section MainProofs.
Context {R : Runtime}.
Implicit Types (w : World R) (e : Exn).

(** ** The loop and the process *)

(** How the [while (true)] loop can end. *)
Lemma queryLoop_outcome stdin :
  ∀ w,
    match queryLoop stdin w with
    | (Normal _, w') =>
        ∃ pre line rest,
          stdin = pre ++ line :: rest ∧ Forall notQuit pre
          ∧ isQuit line = true
          ∧ questionsAsked (trace w')
            = questionsAsked (trace w) ++ pre ++ [line]
    | (Throw e, w') =>
        ∃ pre line rest w0,
          stdin = pre ++ line :: rest ∧ Forall notQuit (pre ++ [line])
          ∧ processQuery line w0 = (Throw e, w')
          ∧ questionsAsked (trace w')
            = questionsAsked (trace w) ++ pre ++ [line]
    | (Pending, w') =>
        Forall notQuit stdin
        ∧ questionsAsked (trace w') = questionsAsked (trace w) ++ stdin
    | (Exit _, _) => False
    end.
Proof.
  induction stdin as [|message rest IH]; intros w.
  - simpl. split; [constructor|by rewrite app_nil_r].
  - cbn [queryLoop]. erewrite bind_normal; [|apply emit_logged].
    set (w1 := logged w [EvQuestion (nl +:+ "Query/Response: ") message]).
    assert (questionsAsked (trace w1) = questionsAsked (trace w) ++ [message])
      as Hw1 by (unfold w1; cbn [logged trace];
                 by rewrite questionsAsked_app).
    destruct (isQuit message) eqn:Hquit.
    + simpl. exists [], message, rest. by repeat split.
    + destruct (settles_processQuery message w1) as [Hq Hc].
      destruct (processQuery message w1) as [c w2] eqn:Hrun.
      cbn [fst snd] in Hq, Hc. destruct Hc as [[response ->]|[e ->]].
      * erewrite bind_normal; [|exact Hrun].
        erewrite bind_normal; [|apply emit_logged].
        set (w3 := logged w2 [EvConsoleLog (nl +:+ response)]).
        assert (questionsAsked (trace w3)
                = questionsAsked (trace w) ++ [message]) as Hw3.
        { unfold w3; cbn [logged trace]. rewrite questionsAsked_app, Hq, Hw1.
          cbn. by rewrite app_nil_r. }
        specialize (IH w3).
        destruct (queryLoop rest w3) as [[[]|e|n|] w'].
        -- destruct IH as (pre & line & rest' & -> & Hpre & Hline & Hasked).
           exists (message :: pre), line, rest'.
           repeat split; [by constructor|done|].
           by rewrite Hasked, Hw3, <- !(assoc_L (++)).
        -- destruct IH as (pre & line & rest' & w0 & -> & Hpre & Hthrow
                           & Hasked).
           exists (message :: pre), line, rest', w0.
           repeat split; [by constructor|done|].
           by rewrite Hasked, Hw3, <- !(assoc_L (++)).
        -- done.
        -- destruct IH as [Hrest Hasked]. split; [by constructor|].
           by rewrite Hasked, Hw3, <- !(assoc_L (++)).
      * erewrite bind_throw; [|exact Hrun].
        exists [], message, rest, w1.
        repeat split; [by repeat constructor|done|].
        simpl. by rewrite Hq, Hw1.
Qed.


End MainProofs.

Section FailureProofs.
Context {R : Runtime}.
Implicit Types (w : World R) (e : Exn).

(** ** A failing query, wherever it stands in the input *)

(** When the loop has answered the lines [pre] and waits for more, it
    goes on with further input from the state it reached. *)
Lemma queryLoop_app_pending pre :
  ∀ w wk rest,
    queryLoop pre w = (Pending, wk) →
    queryLoop (pre ++ rest) w = queryLoop rest wk.
Proof.
  induction pre as [|message pre IH]; intros w wk rest Hpre.
  - simpl in Hpre. by injection Hpre as <-.
  - cbn [app queryLoop] in *.
    erewrite bind_normal in Hpre; [|apply emit_logged].
    erewrite bind_normal; [|apply emit_logged].
    destruct (isQuit message); [discriminate|].
    match goal with
    | |- context [(processQuery message ≫= _) ?w1] =>
        destruct (settles_processQuery message w1) as [_ Hc];
        destruct (processQuery message w1) as [c w2] eqn:Hrun
    end.
    cbn [fst] in Hc. destruct Hc as [[response ->]|[e ->]].
    + erewrite bind_normal in Hpre; [|exact Hrun].
      erewrite bind_normal in Hpre; [|apply emit_logged].
      erewrite bind_normal; [|exact Hrun].
      erewrite bind_normal; [|apply emit_logged].
      by apply IH.
    + erewrite bind_throw in Hpre; [|exact Hrun]. discriminate.
Qed.

Lemma chatLoop_body w stdin :
  (emit (EvConsoleLog (nl +:+ "MCP Client Started!"));;
   emit (EvConsoleLog "Type your queries or 'quit' to exit.");;
   queryLoop stdin) w
  = queryLoop stdin (started w).
Proof.
  erewrite bind_normal; [|apply emit_logged].
  erewrite bind_normal; [|apply emit_logged].
  by rewrite logged_logged.
Qed.

(** The loop at a quit line and at a line whose query throws, after any
    lines answered before. *)
Lemma queryLoop_ends_at pre line rest w wk :
  queryLoop pre w = (Pending, wk) →
  (isQuit line = true →
   queryLoop (pre ++ line :: rest) w
   = (Normal (), logged wk [EvQuestion (nl +:+ "Query/Response: ") line]))
  ∧ (∀ e w',
       isQuit line = false →
       processQuery line
         (logged wk [EvQuestion (nl +:+ "Query/Response: ") line])
       = (Throw e, w') →
       queryLoop (pre ++ line :: rest) w = (Throw e, w')).
Proof.
  intros Hpre. rewrite (queryLoop_app_pending pre w wk _ Hpre).
  cbn [queryLoop]. split.
  - intros Hquit. erewrite bind_normal; [|apply emit_logged].
    by rewrite Hquit.
  - intros e w' Hquit Hrun. erewrite bind_normal; [|apply emit_logged].
    rewrite Hquit. erewrite bind_throw; [reflexivity|exact Hrun].
Qed.

(** C3, as the code has it.  When a provider invocation or a session
    call fails while a query is processed, processQuery throws and
    returns none of the collected output; chatLoop catches the error
    outside its loop, logs it, closes the line reader and returns.  This
    holds wherever the failing query stands: after any lines [pre] that
    were answered, the failed query is the last line read, whatever input
    follows.  Lines are taken in the ASCII range. *)
Theorem failed_query_ends_chatLoop w pre wk s query rest e :
  queryLoop pre (started w) = (Pending, wk) →
  this_session wk = Some s →
  asciiLines (pre ++ [query]) →
  isQuit query = false →
  QueryFails (this_mcp wk) s query e →
  (∃ w1, processQuery query
           (logged wk [EvQuestion (nl +:+ "Query/Response: ") query])
         = (Throw e, w1))
  ∧ ∃ w2 tr,
      chatLoop (pre ++ query :: rest) w = (Normal (), w2)
      ∧ trace w2 = tr ++ [EvConsoleError e; EvReadlineClose]
      ∧ questionsAsked (trace w2)
        = questionsAsked (trace w) ++ pre ++ [query].
Proof.
  intros Hpre Hs _ Hquit Hfail.
  set (wq := logged wk [EvQuestion (nl +:+ "Query/Response: ") query]).
  destruct (processQuery_QueryFails wq s query e Hs Hfail) as [w1 Hw1].
  split; [by exists w1|].
  exists (logged w1 [EvConsoleError e; EvReadlineClose]), (trace w1).
  split; [|split; [reflexivity|]].
  - unfold chatLoop, try_finally.
    erewrite try_catch_throw; cycle 1.
    { rewrite chatLoop_body.
      by apply (proj2 (queryLoop_ends_at pre query rest _ wk Hpre)). }
    by rewrite !emit_logged, logged_logged.
  - pose proof (queryLoop_outcome pre (started w)) as Hout.
    rewrite Hpre in Hout. destruct Hout as [_ Hasked].
    destruct (settles_processQuery query wq) as [Hq _].
    rewrite Hw1 in Hq. cbn [snd] in Hq.
    cbn [logged trace]. rewrite questionsAsked_app, Hq.
    unfold wq. cbn [logged trace]. rewrite questionsAsked_app, Hasked.
    unfold started. cbn [logged trace]. rewrite questionsAsked_app.
    cbn. rewrite !app_nil_r. by rewrite <- (assoc_L (++)).
Qed.
End FailureProofs.

Lemma failed_query_ends_chatLoop_witness :
  ∃ w2, chatLoop (R:=failingSecondRuntime)
          (["hello"] ++ "describe dataset X" :: ["more"])
          (connectedWorld failingSecondRuntime
             (startChat failingSecondRuntime () SYSTEM_PROMPT []))
        = (Normal (), w2)
        ∧ questionsAsked (trace w2) = ["hello"; "describe dataset X"].
Proof.
  destruct (failed_query_ends_chatLoop (R:=failingSecondRuntime)
              (connectedWorld failingSecondRuntime
                 (startChat failingSecondRuntime () SYSTEM_PROMPT []))
              ["hello"]
              (queryLoop (R:=failingSecondRuntime) ["hello"]
                 (started
                    (connectedWorld failingSecondRuntime
                       (startChat failingSecondRuntime () SYSTEM_PROMPT
                                  [])))).2
              [inr (MkResponse (inr "Let me look.")
                      (inr (Some [metadataCall])));
               inr (MkResponse (inr "Still here.") (inr None))]
              "describe dataset X" ["more"] (Error "tool failed"))
    as (_ & w2 & tr & Hrun & _ & Hasked).
  - reflexivity.
  - reflexivity.
  - repeat constructor.
  - reflexivity.
  - eapply (QueryFails_calls (R:=failingSecondRuntime) _ _ _ _ _
              "Let me look." [metadataCall]); try reflexivity.
    eapply (CallsFail_tool (R:=failingSecondRuntime)). reflexivity.
  - exists w2. split; [exact Hrun | exact Hasked].
Defined.

Section ProcessProofs.
Context {R : Runtime}.
Implicit Types (w : World R) (e : Exn).



Lemma endsWith_js_not_py path :
  endsWith path ".js" = true → endsWith path ".py" = false.
Proof.
  unfold endsWith. cbv zeta. intros H.
  apply andb_true_iff in H as [_ Heq]. apply String.eqb_eq in Heq.
  apply andb_false_intro2, String.eqb_neq.
  change (String.length ".py") with (String.length ".js").
  rewrite Heq. discriminate.
Qed.

(** Whatever the connection attempt settles to, [connectToServer] goes
    on to the listing and, when that is answered, installs the catalog
    and a chat session and returns normally. *)
Lemma connectToServer_connect_unobserved env path w c1 r c2 tools :
  endsWith path ".js" = true →
  connect R (this_mcp w) (MkTransport (execPath env) [path]) = (c1, r) →
  listTools R c1 = (c2, inr tools) →
  ∃ w', connectToServer env path w = (Normal (), w')
        ∧ this_tools w' = toolToGoogleTool <$> tools
        ∧ this_session w'
          = Some (startChat R (this_gemini w) SYSTEM_PROMPT
                            (toolToGoogleTool <$> tools)).
Proof.
  intros Hjs Hconn Hlist. unfold connectToServer.
  pose proof (endsWith_js_not_py path Hjs) as Hpy.
  rewrite Hjs, Hpy. cbn [negb andb].
  eexists. split.
  - erewrite try_catch_normal; [reflexivity|].
    erewrite bind_normal; [|reflexivity].
    erewrite bind_normal;
      [|unfold mcp_connect_unawaited, mbind, M_bind; simpl;
        rewrite Hconn; reflexivity].
    erewrite bind_normal;
      [|unfold processTools; erewrite bind_normal;
        [reflexivity|by apply mcp_listTools_ok]].
    reflexivity.
  - split; reflexivity.
Qed.

(** A rejected listing is rethrown by [connectToServer], which leaves
    the catalog and the session as they were. *)
Lemma connectToServer_listing_rejected env path w c1 r c2 e :
  endsWith path ".js" = true →
  connect R (this_mcp w) (MkTransport (execPath env) [path]) = (c1, r) →
  listTools R c1 = (c2, inl e) →
  ∃ w', connectToServer env path w = (Throw e, w')
        ∧ this_tools w' = this_tools w
        ∧ this_session w' = this_session w.
Proof.
  intros Hjs Hconn Hlist. unfold connectToServer.
  pose proof (endsWith_js_not_py path Hjs) as Hpy.
  rewrite Hjs, Hpy. cbn [negb andb].
  eexists. split.
  - erewrite try_catch_throw; [reflexivity|].
    erewrite bind_normal; [|reflexivity].
    erewrite bind_normal;
      [|unfold mcp_connect_unawaited, mbind, M_bind; simpl;
        rewrite Hconn; reflexivity].
    erewrite bind_throw; [reflexivity|].
    unfold processTools. erewrite bind_throw; [reflexivity|].
    by apply mcp_listTools_rejected.
  - split; reflexivity.
Qed.
(** Without a credential the constructor throws, and [main] is rejected
    before any effect. *)
Lemma newMCPClient_missing_key env stdin :
  GEMINI_API_KEY env = None ∨ GEMINI_API_KEY env = Some "" →
  newMCPClient (R:=R) env = inl (Error "GEMINI_API_KEY is not set")
  ∧ main (R:=R) env stdin = (Throw (Error "GEMINI_API_KEY is not set"), []).
Proof.
  intros [Hkey|Hkey]; unfold main, newMCPClient; by rewrite Hkey.
Qed.
End ProcessProofs.



(** C8. A failed connection attempt should make [connectToServer] fail
    and leave no catalog or session behind.  The source calls
    [this.mcp.connect] without awaiting it, so with a provider whose
    connection attempt is rejected while its listing is answered,
    [connectToServer] returns normally with a catalog and a chat session
    installed. *)
Theorem connectToServer_ignores_rejected_connect :
  connect refusedConnectRuntime []
          (MkTransport "/usr/bin/node" ["/srv/build/index.js"])
  = ([], inl (Error "handshake refused"))
  ∧ connectToServer (R:=refusedConnectRuntime) sampleEnv "/srv/build/index.js"
      (@MkWorld refusedConnectRuntime [] () None None [] [])
    = (Normal (),
       @MkWorld refusedConnectRuntime [] () (Some [])
         (Some (MkTransport "/usr/bin/node" ["/srv/build/index.js"]))
         [toolToGoogleTool metadataTool]
         [EvConnect (MkTransport "/usr/bin/node" ["/srv/build/index.js"]);
          EvListTools;
          EvConsoleLogConnected [Some "get_dataset_metadata"]]).
Proof. split; reflexivity. Qed.

(** * Further properties of the translator *)

Lemma modifier_invariance_short_chain_witness :
  zodTypeToGoogleSchema
    (ZodOptional (Some "outer")
       (ZodDefault None
          (ZodNullable None (ZodNumber (Some "n") (Some [MkCheck KindInt None])))
          (LitNumber 0)))
  = plainSchema INTEGER (Some "n").
Proof.
  apply (modifier_invariance_short_chain
           [MOptional (Some "outer")] [MDefault None (LitNumber 0)]
           [MNullable None]
           (ZodNumber (Some "n") (Some [MkCheck KindInt None])));
    [reflexivity | simpl; lia | simpl; lia | simpl; lia | | |].
  - repeat constructor. discriminate.
  - repeat constructor. eauto.
  - repeat constructor. discriminate.
Defined.

(** The three conditionals remove at most three layers: under four or
    more modifiers, whatever they wrap, the result is a bare string
    schema. *)
Theorem long_chain_translates_to_string (chain : list Modifier)
    (base : ZodTypeAny) :
  4 ≤ length chain →
  ∃ d, zodTypeToGoogleSchema (wrap chain base) = plainSchema STRING d.
Proof.
  intros Hlen.
  destruct chain as [|m1 [|m2 [|m3 [|m4 rest]]]]; simpl in Hlen; try lia.
  eexists. apply zodTypeToGoogleSchema_leftover.
  destruct m1, m2, m3, m4; reflexivity.
Qed.

Lemma long_chain_translates_to_string_witness :
  ∃ d, zodTypeToGoogleSchema
         (wrap [MOptional None; MOptional None; MOptional None; MOptional None]
               (ZodBoolean None))
       = plainSchema STRING d.
Proof.
  apply (long_chain_translates_to_string
           [MOptional None; MOptional None; MOptional None; MOptional None]
           (ZodBoolean None)).
  simpl. lia.
Defined.

(** Every kind of schema other than string tells which class of node the
    three conditionals arrived at; only string is shared, by String, Enum
    and everything the dispatch does not name. *)
Theorem schema_type_reflects_kind (z : ZodTypeAny) :
  (schema_type (zodTypeToGoogleSchema z) = OBJECT
   ↔ ∃ d shape, unwrapWrappers z = ZodObject d shape)
  ∧ (schema_type (zodTypeToGoogleSchema z) = ARRAY
     ↔ ∃ d type, unwrapWrappers z = ZodArray d type)
  ∧ (schema_type (zodTypeToGoogleSchema z) = BOOLEAN
     ↔ ∃ d, unwrapWrappers z = ZodBoolean d)
  ∧ (schema_type (zodTypeToGoogleSchema z) = INTEGER
     ↔ ∃ d checks, unwrapWrappers z = ZodNumber d checks ∧ hasIntCheck checks)
  ∧ (schema_type (zodTypeToGoogleSchema z) = NUMBER
     ↔ ∃ d checks,
         unwrapWrappers z = ZodNumber d checks ∧ ¬ hasIntCheck checks)
  ∧ (schema_type (zodTypeToGoogleSchema z) = STRING
     ↔ (∃ d, unwrapWrappers z = ZodString d)
       ∨ (∃ d values, unwrapWrappers z = ZodEnum d values)
       ∨ isRecognized (unwrapWrappers z) = false).
Proof.
  rewrite zodTypeToGoogleSchema_unfold.
  pose proof (isInt_spec) as Hspec.
  destruct (unwrapWrappers z) as [| | | |d checks| | | | |] eqn:Hz;
    [..|idtac]; simpl;
    try (destruct (isInt checks) eqn:Hint; simpl);
    repeat split; intros H;
    repeat match goal with
    | H : ∃ _, _ |- _ => destruct H
    | H : _ ∧ _ |- _ => destruct H
    | H : _ ∨ _ |- _ => destruct H
    end;
    try discriminate; try reflexivity;
    first [ by eauto
          | by left; eauto
          | by right; left; eauto
          | by right; right
          | exists d, checks; split; [done|];
            first [ by apply Hspec
                  | intros H'; apply Hspec in H'; congruence ]
          | match goal with
            | H : ZodNumber _ _ = ZodNumber _ _ |- _ =>
                injection H as <- <-
            end;
            match goal with
            | H : hasIntCheck _ |- _ => apply Hspec in H; congruence
            | H : ¬ hasIntCheck _ |- _ => exfalso; apply H, Hspec; done
            end ].
Qed.

Lemma zod_depth_field (shape : gmap string ZodTypeAny) :
  ∀ key z, shape !! key = Some z →
    zod_depth z ≤ map_fold (λ _ field acc, zod_depth field `max` acc) 0 shape.
Proof.
  apply (map_fold_weak_ind
           (λ b (m : gmap string ZodTypeAny),
              ∀ key z, m !! key = Some z → zod_depth z ≤ b)).
  - intros key z H. by rewrite lookup_empty in H.
  - intros i x m r Hi IH key z Hkey.
    destruct (decide (i = key)) as [->|Hne].
    + rewrite lookup_insert_eq in Hkey. injection Hkey as ->. lia.
    + rewrite lookup_insert_ne in Hkey by done.
      specialize (IH key z Hkey). lia.
Qed.

Lemma zod_depth_unwrapWrappers (z : ZodTypeAny) :
  zod_depth (unwrapWrappers z) ≤ zod_depth z.
Proof.
  assert (∀ y, zod_depth (unwrapOptionalNullable y) ≤ zod_depth y) as Hon
    by (intros []; simpl; lia).
  assert (∀ y, zod_depth (unwrapDefault y) ≤ zod_depth y) as Hd
    by (intros []; simpl; lia).
  unfold unwrapWrappers.
  etransitivity; [apply Hon|]. etransitivity; [apply Hd|]. apply Hon.
Qed.

Lemma fieldsAgree_plain (t : SchemaType) (d : option string) :
  t ≠ ARRAY → t ≠ OBJECT → fieldsAgree (plainSchema t d).
Proof.
  intros Ha Ho. unfold fieldsAgree, plainSchema. simpl.
  repeat split; try (intros [? [=]]); try done; eauto.
Qed.

Lemma SubSchema_plain s t d : SubSchema s (plainSchema t d) → s = plainSchema t d.
Proof. inversion 1; simpl in *; congruence. Qed.

Lemma fieldsAgree_depth (n : nat) :
  ∀ z, zod_depth z ≤ n →
       ∀ s, SubSchema s (zodTypeToGoogleSchema z) → fieldsAgree s.
Proof.
  induction n as [n IH] using lt_wf_ind. intros z Hn s Hsub.
  rewrite zodTypeToGoogleSchema_unfold in Hsub.
  pose proof (zod_depth_unwrapWrappers z) as Hdepth.
  destruct (unwrapWrappers z) as [| | | | | |d values|d type|d shape|];
    try (apply SubSchema_plain in Hsub as ->;
         first [ by apply fieldsAgree_plain
               | destruct (isInt _); by apply fieldsAgree_plain ]).
  - inversion Hsub as [|? ? ? Hitems|? ? ? ? ? Hprops]; subst;
      [|simpl in *; congruence..].
    unfold fieldsAgree. simpl.
    repeat split; try (intros [? [=]]); try done; eauto.
  - inversion Hsub as [|? ? u Hitems Hu|? ? ? ? ? Hprops]; subst;
      [|simpl in Hitems; injection Hitems as <-|simpl in *; congruence].
    + unfold fieldsAgree. simpl.
      repeat split; try (intros [? [=]]); try done; eauto.
    + simpl in Hdepth. apply (IH (zod_depth type)) with type; [lia|lia|done].
  - inversion Hsub as [|? ? ? Hitems|? ? props key u Hprops Hkey Hu]; subst;
      [|simpl in *; congruence|simpl in Hprops; injection Hprops as <-].
    + unfold fieldsAgree. simpl.
      repeat split; try (intros [? [=]]); try done; eauto.
    + apply lookup_delete_Some in Hkey as [_ Hkey].
      rewrite lookup_fmap in Hkey.
      destruct (shape !! key) as [field|] eqn:Hfield; [|done].
      simpl in Hkey. injection Hkey as <-.
      pose proof (zod_depth_field shape key field Hfield) as Hf.
      simpl in Hdepth.
      apply (IH (zod_depth field)) with field; [lia|lia|done].
Qed.

(** Everywhere in a translated schema, at any depth, the fields fit the
    type: [items] is present exactly on arrays, [properties] exactly on
    objects, [enum] exactly together with the format marker and only on
    strings, and [required] never. *)
Theorem translated_fields_agree (z : ZodTypeAny) (s : Schema) :
  SubSchema s (zodTypeToGoogleSchema z) → fieldsAgree s.
Proof. apply (fieldsAgree_depth (zod_depth z)). lia. Qed.

Lemma translated_fields_agree_witness :
  fieldsAgree (MkSchema STRING None (Some "enum") (Some ["a"]) None None None).
Proof.
  apply (translated_fields_agree
           (ZodObject None {[ "x" := ZodArray None (ZodEnum None ["a"]) ]})).
  eapply (SubSchema_property _ _ _ "x"); [reflexivity|by vm_compute|].
  eapply SubSchema_items; [reflexivity|]. apply SubSchema_here.
Defined.

(** The description of the result is the one of the node the three
    conditionals arrive at, so what the outermost modifier says never
    reaches the schema: its description and default value are dropped,
    and Optional and Nullable are interchangeable there. *)
Theorem outermost_modifier_is_dropped (z : ZodTypeAny) :
  schema_description (zodTypeToGoogleSchema z)
  = zod_description (unwrapWrappers z)
  ∧ (∀ d d', zodTypeToGoogleSchema (ZodOptional d z)
             = zodTypeToGoogleSchema (ZodNullable d' z))
  ∧ (∀ d d', zodTypeToGoogleSchema (ZodOptional d z)
             = zodTypeToGoogleSchema (ZodOptional d' z))
  ∧ (∀ d d' v v', zodTypeToGoogleSchema (ZodDefault d z v)
                  = zodTypeToGoogleSchema (ZodDefault d' z v')).
Proof.
  split; [|by repeat split; intros; apply zodTypeToGoogleSchema_unwrapped].
  rewrite zodTypeToGoogleSchema_unfold.
  by destruct (unwrapWrappers z).
Qed.

(** * Further properties of the strings the client tests *)

Lemma append_String (c : ascii) (a b : string) :
  String c a +:+ b = String c (a +:+ b).
Proof. reflexivity. Qed.

Lemma append_empty_l (b : string) : "" +:+ b = b.
Proof. reflexivity. Qed.

Lemma toLowerCase_app (a b : string) :
  toLowerCase (a +:+ b) = toLowerCase a +:+ toLowerCase b.
Proof.
  induction a as [|c a IH]; [done|].
  rewrite append_String. simpl. by rewrite IH.
Qed.

Lemma toLowerCase_split (a : string) :
  ∀ s b, toLowerCase s = a +:+ b →
         ∃ a' b', s = a' +:+ b' ∧ toLowerCase a' = a ∧ toLowerCase b' = b.
Proof.
  induction a as [|c a IH]; intros s b Hs.
  - exists "", s. by repeat split.
  - rewrite append_String in Hs.
    destruct s as [|c' s]; simpl in Hs; [discriminate|].
    injection Hs as Hc Hs.
    destruct (IH s b Hs) as (a' & b' & -> & Ha & Hb).
    exists (String c' a'), b'. rewrite append_String. simpl.
    by rewrite Hc, Ha.
Qed.

Lemma is_whitespace_lower (c : ascii) :
  is_whitespace (lower_ascii c) = is_whitespace c.
Proof. destruct c as [[] [] [] [] [] [] [] []]; reflexivity. Qed.

Lemma allWhitespace_toLowerCase (s : string) :
  allWhitespace (toLowerCase s) = allWhitespace s.
Proof.
  induction s as [|c s IH]; simpl; [done|].
  by rewrite is_whitespace_lower, IH.
Qed.

Lemma trimStart_decomp (s : string) :
  ∃ pre, allWhitespace pre = true ∧ s = pre +:+ trimStart s.
Proof.
  induction s as [|c s (pre & Hpre & Hs)]; simpl; [by exists ""|].
  destruct (is_whitespace c) eqn:Hc.
  - exists (String c pre). simpl. rewrite Hc, Hpre, append_String.
    by rewrite <- Hs.
  - by exists "".
Qed.

Lemma trimEnd_decomp (s : string) :
  ∃ post, allWhitespace post = true ∧ s = trimEnd s +:+ post.
Proof.
  induction s as [|c s (post & Hpost & Hs)]; simpl; [by exists ""|].
  destruct (trimEnd s) as [|c' t] eqn:Ht.
  - rewrite append_empty_l in Hs. subst s.
    destruct (is_whitespace c) eqn:Hc.
    + exists (String c post). simpl. by rewrite Hc, Hpost.
    + by exists post.
  - exists post. rewrite append_String. by rewrite <- Hs.
Qed.

Lemma trimStart_whitespace_app (pre s : string) :
  allWhitespace pre = true → trimStart (pre +:+ s) = trimStart s.
Proof.
  induction pre as [|c pre IH]; simpl; [done|].
  intros [Hc Hpre]%andb_true_iff. rewrite ?append_String. simpl.
  rewrite Hc. by apply IH.
Qed.

Lemma trimEnd_whitespace (s : string) :
  allWhitespace s = true → trimEnd s = "".
Proof.
  induction s as [|c s IH]; simpl; [done|].
  intros [Hc Hs]%andb_true_iff. by rewrite (IH Hs), Hc.
Qed.

Lemma trimEnd_app_whitespace (s post : string) :
  allWhitespace post = true → trimEnd (s +:+ post) = trimEnd s.
Proof.
  intros Hpost. induction s as [|c s IH].
  - by apply trimEnd_whitespace.
  - rewrite append_String. simpl. by rewrite IH.
Qed.

(** A line ends the loop exactly when it is the word quit, in any mix of
    upper and lower case, with nothing but whitespace before and after
    it. *)
Theorem isQuit_iff (line : string) :
  isQuit line = true
  ↔ ∃ pre core post,
      line = pre +:+ core +:+ post
      ∧ allWhitespace pre = true ∧ allWhitespace post = true
      ∧ toLowerCase core = "quit".
Proof.
  unfold isQuit, trim. rewrite String.eqb_eq. split.
  - intros Htrim.
    destruct (trimStart_decomp (toLowerCase line)) as (pre' & Hpre' & Hline).
    destruct (trimEnd_decomp (trimStart (toLowerCase line)))
      as (post' & Hpost' & Hrest).
    rewrite Htrim in Hrest. rewrite Hrest in Hline.
    destruct (toLowerCase_split _ _ _ Hline) as (pre & rest & -> & Hpre & Hr).
    destruct (toLowerCase_split _ _ _ Hr) as (core & post & -> & Hcore & Hpost).
    exists pre, core, post. repeat split; [| |done].
    + by rewrite <- allWhitespace_toLowerCase, Hpre.
    + by rewrite <- allWhitespace_toLowerCase, Hpost.
  - intros (pre & core & post & -> & Hpre & Hpost & Hcore).
    rewrite !toLowerCase_app, Hcore.
    rewrite trimStart_whitespace_app
      by (by rewrite allWhitespace_toLowerCase).
    change (trimStart ("quit" +:+ toLowerCase post))
      with ("quit" +:+ toLowerCase post).
    rewrite trimEnd_app_whitespace
      by (by rewrite allWhitespace_toLowerCase).
    reflexivity.
Qed.

Lemma substring_full (s : string) : String.substring 0 (String.length s) s = s.
Proof. induction s as [|c s IH]; simpl; [done|]. by rewrite IH. Qed.

Lemma substring_app_drop (p suffix : string) :
  String.substring (String.length p) (String.length suffix) (p +:+ suffix)
  = suffix.
Proof.
  induction p as [|c p IH]; [apply substring_full|].
  rewrite append_String. exact IH.
Qed.

Lemma length_string_app (a b : string) :
  String.length (a +:+ b) = String.length a + String.length b.
Proof.
  induction a as [|c a IH]; [done|].
  rewrite append_String. simpl. by rewrite IH.
Qed.

Lemma substring_split (s : string) :
  ∀ m, m ≤ String.length s →
       s = String.substring 0 m s
           +:+ String.substring m (String.length s - m) s.
Proof.
  induction s as [|c s IH]; intros [|m] Hm; simpl in *; try lia; try done.
  - by rewrite append_empty_l, substring_full.
  - rewrite append_String. by rewrite <- IH by lia.
Qed.

(** [endsWith] holds exactly of the strings that have the suffix. *)
Lemma endsWith_spec (s suffix : string) :
  endsWith s suffix = true ↔ ∃ p, s = p +:+ suffix.
Proof.
  unfold endsWith. cbv zeta. rewrite andb_true_iff, String.eqb_eq. split.
  - intros [Hlen%Nat.leb_le Hsub].
    exists (String.substring 0 (String.length s - String.length suffix) s).
    rewrite (substring_split s (String.length s - String.length suffix))
      at 1 by lia.
    f_equal. rewrite <- Hsub at 3. f_equal. lia.
  - intros [p ->]. rewrite length_string_app. split.
    + apply Nat.leb_le. lia.
    + replace (String.length p + String.length suffix - String.length suffix)
        with (String.length p) by lia.
      apply substring_app_drop.
Qed.

Lemma endsWith_false (s suffix : string) :
  endsWith s suffix = false ↔ ∀ p, s ≠ p +:+ suffix.
Proof.
  rewrite <- not_true_iff_false, endsWith_spec. split.
  - intros Hno p ->. apply Hno. eauto.
  - intros Hno [p ->]. by apply (Hno p).
Qed.

Lemma isQuit_iff_witness :
  isQuit ("  " +:+ "QuIt" +:+ nl) = true.
Proof.
  apply (proj2 (isQuit_iff ("  " +:+ "QuIt" +:+ nl))).
  exists "  ", "QuIt", nl. repeat split.
Defined.

(** * Further properties of the client *)

Section ConnectProofs.
Context {R : Runtime}.
Implicit Types (w : World R) (e : Exn).

(** ** connectToServer *)

Lemma serverCommand_eq env path :
  (if endsWith path ".py"
   then (if String.eqb (platform env) "win32" then "python" else "python3")
   else execPath env) = serverCommand env path.
Proof. reflexivity. Qed.

Lemma firstDeclarationName_toolToGoogleTool (tools : list Tool) :
  firstDeclarationName <$> (toolToGoogleTool <$> tools)
  = (λ tool, Some (tool_name tool)) <$> tools.
Proof.
  induction tools as [|tool tools IH]; [done|].
  rewrite !fmap_cons, IH. reflexivity.
Qed.

(** A script path that ends neither in .js nor in .py is refused before
    anything is launched: the error is logged and rethrown, no transport
    is created, the provider is not contacted and the client is left as
    it was. *)
Theorem connectToServer_rejects_other_scripts env path w :
  (∀ p, path ≠ p +:+ ".js") →
  (∀ p, path ≠ p +:+ ".py") →
  connectToServer env path w
  = (Throw (Error "Server script must be a .js or .py file"),
     logged w
       [EvConsoleLogFailed (Error "Server script must be a .js or .py file")]).
Proof.
  intros Hjs%endsWith_false Hpy%endsWith_false.
  unfold connectToServer. rewrite Hjs, Hpy. cbn [negb andb].
  erewrite try_catch_throw; reflexivity.
Qed.

Lemma valid_extension path :
  (∃ p, path = p +:+ ".js") ∨ (∃ p, path = p +:+ ".py") →
  negb (endsWith path ".js") && negb (endsWith path ".py") = false.
Proof.
  intros [H|H]; apply endsWith_spec in H; rewrite H; simpl;
    [done|apply andb_false_r].
Qed.

(** When the listing is rejected, [connectToServer] logs and rethrows the
    listing's error; the transport has been created and the connection
    attempt made, but the previous catalog and session stay in place: no
    partial catalog is installed. *)
Theorem connectToServer_listing_fails env path w c1 r c2 e :
  (∃ p, path = p +:+ ".js") ∨ (∃ p, path = p +:+ ".py") →
  connect R (this_mcp w) (MkTransport (serverCommand env path) [path])
    = (c1, r) →
  listTools R c1 = (c2, inl e) →
  connectToServer env path w
  = (Throw e,
     MkWorld c2 (this_gemini w) (this_session w)
       (Some (MkTransport (serverCommand env path) [path])) (this_tools w)
       (trace w ++ [EvConnect (MkTransport (serverCommand env path) [path]);
                    EvListTools; EvConsoleLogFailed e])).
Proof.
  intros Hext Hconn Hlist. unfold connectToServer.
  rewrite (valid_extension path Hext), serverCommand_eq.
  erewrite try_catch_throw; cycle 1.
  { erewrite bind_normal; [|reflexivity].
    erewrite bind_normal;
      [|unfold mcp_connect_unawaited, mbind, M_bind; simpl;
        rewrite Hconn; reflexivity].
    erewrite bind_throw; [reflexivity|].
    unfold processTools. erewrite bind_throw; [reflexivity|].
    by apply mcp_listTools_rejected. }
  unfold mbind, M_bind, emit, throw.
  cbn [this_mcp this_gemini this_session this_transport this_tools trace].
  rewrite <- !(assoc_L (++)). reflexivity.
Qed.

(** When the listing is answered, [connectToServer] replaces the catalog
    by the translation of the listing, starts a chat session with the
    system prompt and that catalog, and logs the tools' names in listing
    order; a .py script is launched with python3 (python on win32), a .js
    script with the running executable. *)
Theorem connectToServer_installs_catalog env path w c1 r c2 tools :
  (∃ p, path = p +:+ ".js") ∨ (∃ p, path = p +:+ ".py") →
  connect R (this_mcp w) (MkTransport (serverCommand env path) [path])
    = (c1, r) →
  listTools R c1 = (c2, inr tools) →
  connectToServer env path w
  = (Normal (),
     MkWorld c2 (this_gemini w)
       (Some (startChat R (this_gemini w) SYSTEM_PROMPT
                        (toolToGoogleTool <$> tools)))
       (Some (MkTransport (serverCommand env path) [path]))
       (toolToGoogleTool <$> tools)
       (trace w ++ [EvConnect (MkTransport (serverCommand env path) [path]);
                    EvListTools;
                    EvConsoleLogConnected
                      ((λ tool, Some (tool_name tool)) <$> tools)]))
  ∧ ((∃ p, path = p +:+ ".py") →
     serverCommand env path
     = if String.eqb (platform env) "win32" then "python" else "python3")
  ∧ ((∃ p, path = p +:+ ".js") → serverCommand env path = execPath env).
Proof.
  intros Hext Hconn Hlist. split; [|split].
  - unfold connectToServer.
    rewrite (valid_extension path Hext), serverCommand_eq.
    rewrite try_catch_normal
      with (a := ())
           (w' := MkWorld c2 (this_gemini w)
                    (Some (startChat R (this_gemini w) SYSTEM_PROMPT
                                     (toolToGoogleTool <$> tools)))
                    (Some (MkTransport (serverCommand env path) [path]))
                    (toolToGoogleTool <$> tools)
                    (trace w
                     ++ [EvConnect (MkTransport (serverCommand env path) [path]);
                         EvListTools;
                         EvConsoleLogConnected
                           ((λ tool, Some (tool_name tool)) <$> tools)]));
      [reflexivity|].
    erewrite bind_normal; [|reflexivity].
    erewrite bind_normal;
      [|unfold mcp_connect_unawaited, mbind, M_bind; simpl;
        rewrite Hconn; reflexivity].
    erewrite bind_normal;
      [|unfold processTools; erewrite bind_normal;
        [reflexivity|by apply mcp_listTools_ok]].
    rewrite <- firstDeclarationName_toolToGoogleTool.
    unfold mbind, M_bind, emit, set_tools, set_session, get_world.
    cbn [this_mcp this_gemini this_session this_transport this_tools trace].
    rewrite <- !(assoc_L (++)). reflexivity.
  - intros Hpy%endsWith_spec. unfold serverCommand. by rewrite Hpy.
  - intros Hjs%endsWith_spec. unfold serverCommand.
    by rewrite (endsWith_js_not_py path Hjs).
Qed.
End ConnectProofs.

Lemma connectToServer_rejects_other_scripts_witness :
  (connectToServer (R:=oneCallRuntime) sampleEnv "server.rb"
     (@MkWorld oneCallRuntime [] () None None [] [])).1
  = Throw (Error "Server script must be a .js or .py file").
Proof.
  rewrite (connectToServer_rejects_other_scripts (R:=oneCallRuntime)
             sampleEnv "server.rb"
             (@MkWorld oneCallRuntime [] () None None [] [])).
  - reflexivity.
  - apply endsWith_false. reflexivity.
  - apply endsWith_false. reflexivity.
Defined.

Lemma connectToServer_listing_fails_witness :
  (connectToServer (R:=failingListRuntime) sampleEnv "/srv/index.py"
     (@MkWorld failingListRuntime [] () None None [] [])).1
  = Throw (Error "list failed").
Proof.
  rewrite (connectToServer_listing_fails (R:=failingListRuntime)
             sampleEnv "/srv/index.py"
             (@MkWorld failingListRuntime [] () None None [] [])
             [] (inr ()) [] (Error "list failed")).
  - reflexivity.
  - right. exists "/srv/index". reflexivity.
  - reflexivity.
  - reflexivity.
Defined.

Lemma connectToServer_installs_catalog_witness :
  (connectToServer (R:=oneCallRuntime) sampleEnv "/srv/index.js"
     (@MkWorld oneCallRuntime [inr (textResult "files: 3")] () None None
               [] [])).1
  = Normal ().
Proof.
  rewrite (proj1 (connectToServer_installs_catalog (R:=oneCallRuntime)
             sampleEnv "/srv/index.js"
             (@MkWorld oneCallRuntime [inr (textResult "files: 3")] () None
                       None [] [])
             [inr (textResult "files: 3")] (inr ())
             [inr (textResult "files: 3")] [metadataTool]
             (or_introl (ex_intro _ "/srv/index" eq_refl)) eq_refl eq_refl)).
  reflexivity.
Defined.

Section QueryEdgeProofs.
Context {R : Runtime}.
Implicit Types (w : World R) (e : Exn).

(** ** processQuery at the edges *)

Lemma session_sendMessage_unconnected w text :
  this_session w = None →
  session_sendMessage text w
  = (Throw (TypeError "this.session.sendMessage is not a function"), w).
Proof.
  intros Hs. unfold session_sendMessage, mbind, M_bind; simpl.
  by rewrite Hs.
Qed.

(** On a client that has not connected, the session is the empty object
    of the constructor: a query throws a TypeError at once, and nothing
    is sent, invoked or logged. *)
Theorem processQuery_before_connect w query :
  this_session w = None →
  processQuery query w
  = (Throw (TypeError "this.session.sendMessage is not a function"), w).
Proof.
  intros Hs. unfold processQuery.
  erewrite bind_throw; [reflexivity|].
  by apply session_sendMessage_unconnected.
Qed.

(** When the provider's result has an empty content list, the query
    throws a TypeError: the tool has been invoked and its result logged,
    but no follow-up message is sent and the remaining requested calls
    are not made. *)
Theorem processQuery_empty_content w s query s1 resp text call calls c1
    result :
  this_session w = Some s →
  sendMessage R s query = (s1, inr resp) →
  response_text resp = inr text →
  response_functionCalls resp = inr (Some (call :: calls)) →
  callTool R (this_mcp w) (fc_name call) (fc_args call) = (c1, inr result) →
  content result = [] →
  processQuery query w
  = (Throw (TypeError "Cannot read properties of undefined (reading 'text')"),
     MkWorld c1 (this_gemini w) (Some s1) (this_transport w) (this_tools w)
       (trace w ++ [EvSendMessage query;
                    EvCallTool (fc_name call) (fc_args call);
                    EvConsoleLogResult result])).
Proof.
  intros Hs Hsend Htext Hcalls Hcall Hcontent. unfold processQuery.
  erewrite bind_normal; [|by eapply session_sendMessage_ok].
  erewrite bind_normal; [|by rewrite Htext].
  erewrite bind_normal; [|by rewrite Hcalls].
  erewrite bind_throw; [reflexivity|].
  change (default [] (Some (call :: calls))) with (call :: calls).
  cbn [forEachFunctionCall].
  erewrite bind_normal; [|by apply mcp_callTool_ok].
  erewrite bind_normal; [|reflexivity].
  erewrite bind_throw;
    [|unfold firstContentText; rewrite Hcontent; reflexivity].
  unfold emit.
  cbn [this_mcp this_gemini this_session this_transport this_tools trace].
  rewrite <- !(assoc_L (++)). reflexivity.
Qed.

(** When the first block of the provider's result carries no text, the
    follow-up message that goes to the session ends in the word
    undefined, and the query goes on with the session's answer to it. *)
Theorem processQuery_block_without_text w s query s1 resp text call c1
    result type blocks s2 resp2 text2 :
  this_session w = Some s →
  sendMessage R s query = (s1, inr resp) →
  response_text resp = inr text →
  response_functionCalls resp = inr (Some [call]) →
  callTool R (this_mcp w) (fc_name call) (fc_args call) = (c1, inr result) →
  content result = MkContentBlock type None :: blocks →
  sendMessage R s1
    "Using the following information, answer the original query: undefined"
    = (s2, inr resp2) →
  response_text resp2 = inr text2 →
  processQuery query w
  = (Normal (join nl [text; callLine (fc_name call) (fc_args call); text2]),
     MkWorld c1 (this_gemini w) (Some s2) (this_transport w) (this_tools w)
       (trace w ++ [EvSendMessage query;
                    EvCallTool (fc_name call) (fc_args call);
                    EvConsoleLogResult result;
                    EvSendMessage
                      "Using the following information, answer the original query: undefined"])).
Proof.
  intros Hs Hsend Htext Hcalls Hcall Hcontent Hsend2 Htext2.
  unfold processQuery.
  erewrite bind_normal; [|by eapply session_sendMessage_ok].
  erewrite bind_normal; [|by rewrite Htext].
  erewrite bind_normal; [|by rewrite Hcalls].
  erewrite bind_normal;
    [|eapply (forEachFunctionCall_RoundTrips [call] _ s1
                [text] [text2]); [reflexivity|];
      eapply RoundTrips_cons;
        [exact Hcall|exact Hcontent|exact Hsend2|exact Htext2|];
      apply RoundTrips_nil].
  unfold mret, M_ret.
  cbn [this_mcp this_gemini this_session this_transport this_tools trace
       callSegments app].
  rewrite <- !(assoc_L (++)). reflexivity.
Qed.
End QueryEdgeProofs.

Lemma processQuery_before_connect_witness :
  processQuery (R:=oneCallRuntime) "describe dataset X"
    (@MkWorld oneCallRuntime [] () None None [] [])
  = (Throw (TypeError "this.session.sendMessage is not a function"),
     @MkWorld oneCallRuntime [] () None None [] []).
Proof.
  exact (processQuery_before_connect (R:=oneCallRuntime)
           (@MkWorld oneCallRuntime [] () None None [] [])
           "describe dataset X" eq_refl).
Defined.

Lemma processQuery_empty_content_witness :
  (processQuery (R:=emptyContentRuntime) "describe dataset X"
     (connectedWorld emptyContentRuntime
        (startChat emptyContentRuntime () SYSTEM_PROMPT []))).1
  = Throw (TypeError "Cannot read properties of undefined (reading 'text')").
Proof.
  rewrite (processQuery_empty_content (R:=emptyContentRuntime)
             (connectedWorld emptyContentRuntime
                (startChat emptyContentRuntime () SYSTEM_PROMPT []))
             _ "describe dataset X" _ _ "Let me look." metadataCall [] []
             (MkCallToolResult [])
             eq_refl eq_refl eq_refl eq_refl eq_refl eq_refl).
  reflexivity.
Defined.

Lemma processQuery_block_without_text_witness :
  (processQuery (R:=imageContentRuntime) "describe dataset X"
     (connectedWorld imageContentRuntime
        (startChat imageContentRuntime () SYSTEM_PROMPT []))).1
  = Normal ("Let me look." +:+ nl
              +:+ "[Calling tool get_dataset_metadata with args {name:X}]"
              +:+ nl +:+ "I cannot see it.").
Proof.
  rewrite (processQuery_block_without_text (R:=imageContentRuntime)
             (connectedWorld imageContentRuntime
                (startChat imageContentRuntime () SYSTEM_PROMPT []))
             _ "describe dataset X" _ _ "Let me look." metadataCall []
             (MkCallToolResult [MkContentBlock "image" None]) "image" []
             [] _ "I cannot see it."
             eq_refl eq_refl eq_refl eq_refl eq_refl eq_refl eq_refl eq_refl).
  reflexivity.
Defined.

Section QueryInvariantProofs.
Context {R : Runtime}.
Implicit Types (w : World R) (e : Exn).

(** ** What a query never does *)

Lemma toolCalls_app (tr1 tr2 : list (Event R)) :
  toolCalls (tr1 ++ tr2) = toolCalls tr1 ++ toolCalls tr2.
Proof. apply omap_app. Qed.

Lemma settle_inl {A} (e : Exn) w :
  settle (R:=R) (A:=A) (inl e) w = (Throw e, w).
Proof. reflexivity. Qed.

Lemma settle_inr {A} (a : A) w : settle (R:=R) (inr a) w = (Normal a, w).
Proof. reflexivity. Qed.

(** The invocations made by the loop over the requested calls are an
    initial part of the requested calls, and all of them when the loop
    completes. *)
Lemma forEachFunctionCall_toolCalls calls :
  ∀ finalText w,
    ∃ invoked,
      toolCalls (trace (forEachFunctionCall calls finalText w).2)
      = toolCalls (trace w) ++ invoked
      ∧ invoked `prefix_of` requestedCalls calls
      ∧ ∀ out, (forEachFunctionCall calls finalText w).1 = Normal out →
               invoked = requestedCalls calls.
Proof.
  induction calls as [|call calls IH]; intros finalText w.
  - exists []. simpl. by rewrite app_nil_r.
  - cbn [forEachFunctionCall].
    assert (∀ l, [(fc_name call, fc_args call)]
                 `prefix_of` (fc_name call, fc_args call) :: l) as Hone
      by (intros l; apply prefix_cons, prefix_nil).
    destruct (callTool R (this_mcp w) (fc_name call) (fc_args call))
      as [c1 [e|result]] eqn:Hcall.
    { erewrite bind_throw; [|by apply mcp_callTool_rejected].
      exists [(fc_name call, fc_args call)]. cbn [fst snd trace].
      rewrite toolCalls_app. repeat split; [apply Hone|discriminate]. }
    erewrite bind_normal; [|by apply mcp_callTool_ok].
    erewrite bind_normal; [|reflexivity].
    destruct (content result) as [|block blocks] eqn:Hcontent.
    { erewrite bind_throw;
        [|unfold firstContentText; rewrite Hcontent; reflexivity].
      exists [(fc_name call, fc_args call)]. cbn [fst snd trace].
      rewrite !toolCalls_app. cbn. rewrite app_nil_r.
      repeat split; [apply Hone|discriminate]. }
    erewrite bind_normal;
      [|unfold firstContentText; rewrite Hcontent; reflexivity].
    cbn [this_mcp this_gemini this_session this_transport this_tools trace].
    match goal with
    | |- context [(session_sendMessage _ ≫= _) ?w0] => set (w2 := w0)
    end.
    assert (toolCalls (trace w2)
            = toolCalls (trace w) ++ [(fc_name call, fc_args call)]) as Hw2.
    { unfold w2. cbn [trace]. rewrite !toolCalls_app. cbn.
      by rewrite app_nil_r. }
    destruct (this_session w2) as [s|] eqn:Hs.
    2:{ erewrite bind_throw; [|by apply session_sendMessage_unconnected].
        exists [(fc_name call, fc_args call)]. cbn [fst snd].
        repeat split; [done|apply Hone|discriminate]. }
    destruct (sendMessage R s
                (followUp (default "undefined" (block_text block))))
      as [s1 [e|resp]] eqn:Hsend.
    { erewrite bind_throw; [|by eapply session_sendMessage_rejected].
      exists [(fc_name call, fc_args call)]. cbn [fst snd trace].
      rewrite toolCalls_app, Hw2. cbn. rewrite app_nil_r.
      repeat split; [apply Hone|discriminate]. }
    erewrite bind_normal; [|by eapply session_sendMessage_ok].
    destruct (response_text resp) as [e|text] eqn:Htext.
    { erewrite bind_throw; [|apply settle_inl].
      exists [(fc_name call, fc_args call)]. cbn [fst snd trace].
      rewrite toolCalls_app, Hw2. cbn. rewrite app_nil_r.
      repeat split; [apply Hone|discriminate]. }
    erewrite bind_normal; [|apply settle_inr].
    match goal with
    | |- context [forEachFunctionCall calls ?ft ?w3] =>
        destruct (IH ft w3) as (invoked & Htr & Hpre & Hall);
        exists ((fc_name call, fc_args call) :: invoked);
        rewrite Htr
    end.
    cbn [trace]. rewrite toolCalls_app, Hw2. cbn. rewrite app_nil_r.
    rewrite <- (assoc_L (++)). repeat split.
    + by apply prefix_cons.
    + intros out Hout. by rewrite (Hall out Hout).
Qed.

(** Whatever the provider and the session do, a query invokes only tools
    that the model's response requested, in the requested order and
    without skipping any: the invocations made are an initial part of the
    requested calls, and they are all of them when the query returns. *)
Theorem processQuery_invokes_only_requested w s query s1 resp calls :
  this_session w = Some s →
  sendMessage R s query = (s1, inr resp) →
  response_functionCalls resp = inr calls →
  ∃ invoked,
    toolCalls (trace (processQuery query w).2) = toolCalls (trace w) ++ invoked
    ∧ invoked `prefix_of` requestedCalls (default [] calls)
    ∧ ∀ out, (processQuery query w).1 = Normal out →
             invoked = requestedCalls (default [] calls).
Proof.
  intros Hs Hsend Hcalls. unfold processQuery.
  erewrite bind_normal; [|by eapply session_sendMessage_ok].
  destruct (response_text resp) as [e|text] eqn:Htext.
  { erewrite bind_throw; [|apply settle_inl].
    exists []. cbn [fst snd trace]. rewrite toolCalls_app. cbn.
    repeat split; [apply prefix_nil|discriminate]. }
  erewrite bind_normal; [|apply settle_inr].
  erewrite bind_normal; [|rewrite Hcalls; apply settle_inr].
  match goal with
  | |- context [(forEachFunctionCall ?cs ?ft ≫= _) ?w3] =>
      destruct (forEachFunctionCall_toolCalls cs ft w3)
        as (invoked & Htr & Hpre & Hall);
      destruct (forEachFunctionCall cs ft w3) as [[out| | |] w4] eqn:Hrun
  end; exists invoked; unfold mbind, M_bind, mret, M_ret; rewrite Hrun;
    cbn [fst snd] in *; rewrite Htr; cbn [trace]; rewrite toolCalls_app;
    cbn; rewrite app_nil_r; repeat split; try done; try discriminate.
  intros out' _. by eapply Hall.
Qed.

Lemma keepsFrame_ret {A} (a : A) : keepsFrame (R:=R) (mret a).
Proof. by intros w. Qed.

Lemma keepsFrame_throw {A} e : keepsFrame (R:=R) (throw (A:=A) e).
Proof. by intros w. Qed.

Lemma keepsFrame_bind {A B} (c : M R A) (k : A → M R B) :
  keepsFrame c → (∀ a, keepsFrame (k a)) → keepsFrame (c ≫= k).
Proof.
  intros Hc Hk w. specialize (Hc w). unfold mbind, M_bind.
  destruct (c w) as [[a|e|n|] w']; simpl in Hc; try done.
  by rewrite (Hk a w').
Qed.

Lemma keepsFrame_session_sendMessage text :
  keepsFrame (R:=R) (session_sendMessage text).
Proof.
  intros w. unfold session_sendMessage, mbind, M_bind, clientFrame. simpl.
  destruct (this_session w) as [s|] eqn:Hs; simpl; [|by rewrite Hs].
  by destruct (sendMessage R s text) as [s1 [e|resp]].
Qed.

Lemma keepsFrame_mcp_callTool name arguments :
  keepsFrame (R:=R) (mcp_callTool name arguments).
Proof.
  intros w. unfold mcp_callTool, mbind, M_bind, clientFrame. simpl.
  by destruct (callTool R (this_mcp w) name arguments) as [c1 [e|result]].
Qed.

Lemma keepsFrame_forEachFunctionCall calls :
  ∀ finalText, keepsFrame (R:=R) (forEachFunctionCall calls finalText).
Proof.
  induction calls as [|call calls IH]; intros finalText; simpl.
  - apply keepsFrame_ret.
  - apply keepsFrame_bind; [apply keepsFrame_mcp_callTool|]. intros result.
    apply keepsFrame_bind; [by intros w|]. intros _.
    apply keepsFrame_bind;
      [unfold firstContentText; destruct (content result); by intros w|].
    intros t.
    apply keepsFrame_bind; [apply keepsFrame_session_sendMessage|].
    intros r.
    apply keepsFrame_bind; [destruct (response_text r); by intros w|].
    intros text. apply IH.
Qed.

(** A query leaves the client's model handle, transport and tool catalog
    exactly as they were and keeps a session installed if and only if
    one was; it reads no line of input, and it ends with a value or an
    exception, never by leaving the process. *)
Theorem processQuery_keeps_client w query :
  clientFrame (processQuery query w).2 = clientFrame w
  ∧ questionsAsked (trace (processQuery query w).2) = questionsAsked (trace w)
  ∧ ((∃ out, (processQuery query w).1 = Normal out)
     ∨ (∃ e, (processQuery query w).1 = Throw e)).
Proof.
  split; [|apply settles_processQuery].
  revert w. unfold processQuery.
  apply keepsFrame_bind; [apply keepsFrame_session_sendMessage|]. intros r.
  apply keepsFrame_bind; [destruct (response_text r); by intros w|].
  intros text.
  apply keepsFrame_bind;
    [destruct (response_functionCalls r); by intros w|].
  intros calls.
  apply keepsFrame_bind; [apply keepsFrame_forEachFunctionCall|].
  intros ft. apply keepsFrame_ret.
Qed.
End QueryInvariantProofs.

Lemma processQuery_invokes_only_requested_witness :
  ∃ invoked,
    toolCalls
      (trace (processQuery (R:=failingToolRuntime) "describe dataset X"
                (connectedWorld failingToolRuntime
                   (startChat failingToolRuntime () SYSTEM_PROMPT []))).2)
    = invoked
    ∧ invoked `prefix_of` [("get_dataset_metadata", "{name:X}")].
Proof.
  destruct (processQuery_invokes_only_requested (R:=failingToolRuntime)
              (connectedWorld failingToolRuntime
                 (startChat failingToolRuntime () SYSTEM_PROMPT []))
              _ "describe dataset X" _ _ (Some [metadataCall])
              eq_refl eq_refl eq_refl) as (invoked & Htr & Hpre & _).
  exists invoked. split; [exact Htr | exact Hpre].
Defined.

Section LoopEdgeProofs.
Context {R : Runtime}.
Implicit Types (w : World R) (e : Exn).

(** ** The loop at its edges *)

(** A quit line is never forwarded: when it is the first line, the loop
    ends without a message to the session or a call to the provider; the
    only effects are the two banner lines, the prompt and the closing of
    the line reader. *)
Theorem chatLoop_quit_first w line rest :
  isQuit line = true →
  chatLoop (line :: rest) w
  = (Normal (),
     logged w [EvConsoleLog (nl +:+ "MCP Client Started!");
               EvConsoleLog "Type your queries or 'quit' to exit.";
               EvQuestion (nl +:+ "Query/Response: ") line;
               EvReadlineClose]).
Proof.
  intros Hquit. unfold chatLoop, try_finally.
  erewrite try_catch_normal; cycle 1.
  { erewrite bind_normal; [|apply emit_logged].
    erewrite bind_normal; [|apply emit_logged].
    cbn [queryLoop].
    erewrite bind_normal; [|apply emit_logged].
    rewrite Hquit, !logged_logged. reflexivity. }
  rewrite emit_logged, logged_logged. reflexivity.
Qed.

Lemma queryLoop_ignores_input_after_quit pre line rest :
  isQuit line = true →
  ∀ w, queryLoop (pre ++ line :: rest) w = queryLoop (pre ++ [line]) w.
Proof.
  intros Hquit. induction pre as [|message pre IH]; intros w.
  - cbn [app queryLoop]. unfold mbind, M_bind.
    destruct (emit _ w) as [[[]|e|n|] w1]; try done. by rewrite Hquit.
  - cbn [app queryLoop]. unfold mbind, M_bind.
    destruct (emit _ w) as [[[]|e|n|] w1]; try done.
    destruct (isQuit message); [done|].
    destruct (processQuery message w1) as [[response|e|n|] w2]; try done.
    destruct (emit _ w2) as [[[]|e|n|] w3]; try done.
Qed.

(** What stands after a quit line in the input has no influence on what
    the loop does. *)
Theorem chatLoop_ignores_input_after_quit pre line rest w :
  isQuit line = true →
  chatLoop (pre ++ line :: rest) w = chatLoop (pre ++ [line]) w.
Proof.
  intros Hquit. unfold chatLoop, try_finally, try_catch, mbind, M_bind.
  destruct (emit _ w) as [[[]|e|n|] w1]; try done.
  destruct (emit _ w1) as [[[]|e|n|] w2]; try done.
  by rewrite (queryLoop_ignores_input_after_quit pre line rest Hquit w2).
Qed.

(** [chatLoop] never throws and never leaves the process: it either
    keeps waiting for input, when no line was a quit line, or it returns,
    and then closing the line reader was the last thing it did. *)
Theorem chatLoop_closes_reader stdin w :
  match chatLoop stdin w with
  | (Normal _, w') => last (trace w') = Some EvReadlineClose
  | (Pending, _) => Forall notQuit stdin
  | _ => False
  end.
Proof.
  unfold chatLoop, try_finally, try_catch.
  erewrite bind_normal; [|apply emit_logged].
  erewrite bind_normal; [|apply emit_logged].
  match goal with
  | |- context [queryLoop stdin ?w0] =>
      pose proof (queryLoop_outcome stdin w0) as Hloop;
      destruct (queryLoop stdin w0) as [[[]|e|n|] w']
  end.
  - rewrite emit_logged. apply last_snoc.
  - rewrite !emit_logged. apply last_snoc.
  - done.
  - by destruct Hloop.
Qed.

(** When connecting throws although no connection attempt was rejected
    (the script path is refused or the catalog fetch fails), [main] never
    starts the interactive loop: no line of the input is read, closing
    the provider connection is the last effect, and the process exits
    with code 0 when the closing succeeds and is rejected with the
    closing's error when it does not. *)
Theorem main_connect_failure env stdin w0 e w1 :
  newMCPClient (R:=R) env = inr w0 →
  connectionsAccepted R env →
  connectAll env SERVER_PATHS w0 = (Throw e, w1) →
  main env stdin
  = (match (close R (this_mcp w1)).2 with
     | inr _ => Exit 0
     | inl e' => Throw e'
     end,
     trace w1 ++ [EvClose])
  ∧ questionsAsked (trace w1 ++ [EvClose]) = [].
Proof.
  intros Hnew _ Hconn.
  assert (trace w0 = []) as Hw0.
  { unfold newMCPClient in Hnew.
    destruct (GEMINI_API_KEY env) as [[|a key]|]; try discriminate.
    by injection Hnew as <-. }
  destruct (settles_connectAll env SERVER_PATHS w0) as [Hq _].
  rewrite Hconn, Hw0 in Hq. cbn [snd] in Hq.
  split; [|by rewrite questionsAsked_app, Hq].
  unfold main. rewrite Hnew. unfold mainBody, try_finally.
  erewrite bind_throw; [|exact Hconn].
  unfold cleanup, mcp_close, mbind, M_bind; simpl.
  by destruct (close R (this_mcp w1)) as [c' [e'|[]]].
Qed.
End LoopEdgeProofs.

Lemma chatLoop_quit_first_witness :
  (chatLoop (R:=oneCallRuntime) [" QUIT "; "describe dataset X"]
     (connectedWorld oneCallRuntime
        (startChat oneCallRuntime () SYSTEM_PROMPT []))).1
  = Normal ().
Proof.
  rewrite (chatLoop_quit_first (R:=oneCallRuntime)
             (connectedWorld oneCallRuntime
                (startChat oneCallRuntime () SYSTEM_PROMPT []))
             " QUIT " ["describe dataset X"] eq_refl).
  reflexivity.
Defined.

Lemma chatLoop_ignores_input_after_quit_witness :
  chatLoop (R:=oneCallRuntime) (["describe dataset X"] ++ "quit" :: ["more"])
    (connectedWorld oneCallRuntime
       (startChat oneCallRuntime () SYSTEM_PROMPT []))
  = chatLoop (R:=oneCallRuntime) (["describe dataset X"] ++ ["quit"])
      (connectedWorld oneCallRuntime
         (startChat oneCallRuntime () SYSTEM_PROMPT [])).
Proof.
  exact (chatLoop_ignores_input_after_quit (R:=oneCallRuntime)
           ["describe dataset X"] "quit" ["more"]
           (connectedWorld oneCallRuntime
              (startChat oneCallRuntime () SYSTEM_PROMPT []))
           eq_refl).
Defined.

Lemma main_connect_failure_witness :
  main (R:=failingListRuntime) sampleEnv ["describe dataset X"]
  = (Exit 0,
     [EvConnect (MkTransport "/usr/bin/node"
                   ["/git/kaggle-nodejs-mcp-server/build/index.js"]);
      EvListTools;
      EvConsoleLogFailed (Error "list failed")] ++ [EvClose]).
Proof.
  refine (proj1 (main_connect_failure (R:=failingListRuntime) sampleEnv
            ["describe dataset X"]
            (@MkWorld failingListRuntime [] () None None [] [])
            (Error "list failed")
            (@MkWorld failingListRuntime [] () None
               (Some (MkTransport "/usr/bin/node"
                        ["/git/kaggle-nodejs-mcp-server/build/index.js"]))
               []
               [EvConnect (MkTransport "/usr/bin/node"
                             ["/git/kaggle-nodejs-mcp-server/build/index.js"]);
                EvListTools;
                EvConsoleLogFailed (Error "list failed")])
            eq_refl _ eq_refl)).
  intros c path _. reflexivity.
Defined.

Section SequencingProofs.
Context {R : Runtime}.
Implicit Types (w : World R) (e : Exn).

(** With two requested calls, the first is completed, follow-up
    included, before the second is invoked: the second invocation runs on
    the provider state that the first left, its follow-up goes to the
    session as the first follow-up left it, and the effects appear in
    that order. *)
Theorem processQuery_two_calls_in_sequence w s query s1 resp text
    callA callB c1 resultA blockA blocksA s2 respA textA
    c2 resultB blockB blocksB s3 respB textB :
  this_session w = Some s →
  sendMessage R s query = (s1, inr resp) →
  response_text resp = inr text →
  response_functionCalls resp = inr (Some [callA; callB]) →
  callTool R (this_mcp w) (fc_name callA) (fc_args callA)
    = (c1, inr resultA) →
  content resultA = blockA :: blocksA →
  sendMessage R s1 (followUp (default "undefined" (block_text blockA)))
    = (s2, inr respA) →
  response_text respA = inr textA →
  callTool R c1 (fc_name callB) (fc_args callB) = (c2, inr resultB) →
  content resultB = blockB :: blocksB →
  sendMessage R s2 (followUp (default "undefined" (block_text blockB)))
    = (s3, inr respB) →
  response_text respB = inr textB →
  processQuery query w
  = (Normal (join nl [text;
                      callLine (fc_name callA) (fc_args callA); textA;
                      callLine (fc_name callB) (fc_args callB); textB]),
     MkWorld c2 (this_gemini w) (Some s3) (this_transport w) (this_tools w)
       (trace w
        ++ [EvSendMessage query;
            EvCallTool (fc_name callA) (fc_args callA);
            EvConsoleLogResult resultA;
            EvSendMessage
              (followUp (default "undefined" (block_text blockA)));
            EvCallTool (fc_name callB) (fc_args callB);
            EvConsoleLogResult resultB;
            EvSendMessage
              (followUp (default "undefined" (block_text blockB)))])).
Proof.
  intros Hs Hsend Htext Hcalls HcallA HcontentA HsendA HtextA
         HcallB HcontentB HsendB HtextB.
  unfold processQuery.
  erewrite bind_normal; [|by eapply session_sendMessage_ok].
  erewrite bind_normal; [|by rewrite Htext].
  erewrite bind_normal; [|by rewrite Hcalls].
  erewrite bind_normal;
    [|eapply (forEachFunctionCall_RoundTrips [callA; callB] _ s1
                [text] [textA; textB]); [reflexivity|];
      eapply RoundTrips_cons;
        [exact HcallA|exact HcontentA|exact HsendA|exact HtextA|];
      eapply RoundTrips_cons;
        [exact HcallB|exact HcontentB|exact HsendB|exact HtextB|];
      apply RoundTrips_nil].
  unfold mret, M_ret.
  cbn [this_mcp this_gemini this_session this_transport this_tools trace
       callSegments app].
  rewrite <- !(assoc_L (++)). reflexivity.
Qed.
End SequencingProofs.

Lemma processQuery_two_calls_in_sequence_witness :
  (processQuery (R:=twoCallRuntime) "describe dataset X"
     (connectedWorld twoCallRuntime
        (startChat twoCallRuntime () SYSTEM_PROMPT []))).1
  = Normal ("Two lookups." +:+ nl
              +:+ "[Calling tool get_dataset_metadata with args {name:X}]"
              +:+ nl +:+ "X has 3 files." +:+ nl
              +:+ "[Calling tool list_files with args {name:X}]"
              +:+ nl +:+ "They are a, b, c.").
Proof.
  rewrite (processQuery_two_calls_in_sequence (R:=twoCallRuntime)
             (connectedWorld twoCallRuntime
                (startChat twoCallRuntime () SYSTEM_PROMPT []))
             _ "describe dataset X" _ _ "Two lookups."
             metadataCall listCall
             _ (textResult "files: 3") (MkContentBlock "text" (Some "files: 3"))
             [] _ _ "X has 3 files."
             _ (textResult "a b c") (MkContentBlock "text" (Some "a b c"))
             [] _ _ "They are a, b, c."
             eq_refl eq_refl eq_refl eq_refl eq_refl eq_refl eq_refl eq_refl
             eq_refl eq_refl eq_refl eq_refl).
  reflexivity.
Defined.
